(** * Redis Sentinel client and pool adapter (package [sentinel])

    A shallow embedding of [sentinel.go] and a verification of its
    specification.  The source file holds two copies of the package:

    - the copy importing [github.com/garyburd/redigo] (lines 1-170), embedded
      in [Module V1];
    - the copy importing [github.com/gomodule/redigo] (lines 172-372),
      embedded in [Module V2].

    The two copies agree verbatim on [NewClient], [doOnce], [Close] and
    [TestRole]; these are embedded once, before the two modules.  They differ
    in the retry loop [do] (the second copy leaves the loop with [break]
    after a successful attempt), in the configuration type and in [NewPool]
    (the second copy calls [validateConfig]).

    Go code is embedded as a state-and-panic monad over the pair of the
    [Client] struct (the object behind the pointer [sc]) and the state of the
    network.  The mutex embedded in [Client] serialises callers: every
    exported method runs from [Lock] to the deferred [Unlock], so the model
    is that of one caller at a time and the mutex has no further content. *)

From Stdlib Require Import ZArith List String Ascii Bool Arith Lia.
Import ListNotations.
Open Scope string_scope.
Open Scope list_scope.

Set Implicit Arguments.

(** ** Go values *)

(** Go's [error] interface: [None] is [nil]; an error is known by its
    message ([errors.New], [fmt.Errorf] with a [%s] verb). *)
Definition error := string.

(** [time.Duration] is an [int64] count of nanoseconds. *)
Definition Duration := Z.
Definition Second : Duration := 1000000000%Z.

(** Go's [int] on the 64-bit targets: two's complement wrap-around. *)
Definition max_int : Z := (2 ^ 63 - 1)%Z.
Definition wrap_int (x : Z) : Z := ((x + 2 ^ 63) mod 2 ^ 64 - 2 ^ 63)%Z.

(** [redis.DialOption]: the three options the package builds. *)
Inductive DialOption : Type :=
| DialConnectTimeout (d : Duration)
| DialReadTimeout (d : Duration)
| DialWriteTimeout (d : Duration).

(** A reply of the client library: [nil], [int64], [[]byte] (bulk string),
    [string] (status line), [[]interface{}] (array) or [redis.Error]. *)
#[warnings="-register-all"]
Inductive reply : Type :=
| RNil
| RInt (n : Z)
| RBulk (b : string)
| RStatus (s : string)
| RArray (l : list reply)
| RError (e : string).

(** A live [redis.Conn] value: an identity and the address it was dialed to.
    A variable of interface type [redis.Conn] is an [option Conn]. *)
Record Conn : Type := mkConn { cid : nat; peer : string }.

Definition same_conn (a b : Conn) : bool := Nat.eqb (cid a) (cid b).

(** ** The network *)

(** What the program does to the network, in order. *)
Inductive event : Type :=
| EvDial (addr : string) (opts : list DialOption) (err : option error)
| EvDo (c : Conn) (cmd : string) (args : list string) (err : option error)
| EvClose (c : Conn).

(** The peers are arbitrary but deterministic: the answer to a dial or to a
    command is a function of everything that happened before and of the
    request. *)
Record Net : Type := mkNet {
  on_dial : list event -> string -> list DialOption -> option error;
  on_do : list event -> Conn -> string -> list string -> reply * option error
}.

(** The connections that are open, the next connection identity and the
    history (oldest event first). *)
Record NetSt : Type := mkNetSt {
  live : list Conn;
  fresh : nat;
  log : list event
}.

(** ** The client *)

(** [type Client struct] (lines 15-21, 185-191), without the mutex. *)
Record Client : Type := mkClient {
  conn : option Conn;
  options : list DialOption;
  addrs : list string;
  activeAddr : Z
}.

Record Sys : Type := mkSys { sc : Client; nw : NetSt }.

(** ** The monad: state, and a panic that stops the computation *)

Inductive result (A : Type) : Type :=
| Return (a : A)
| Panic (msg : string).
Arguments Panic {A} msg.

Definition M (A : Type) : Type := Sys -> result A * Sys.

Definition ret {A} (a : A) : M A := fun s => (Return a, s).

Definition bind {A B} (m : M A) (f : A -> M B) : M B :=
  fun s => match m s with
           | (Return a, s') => f a s'
           | (Panic msg, s') => (Panic msg, s')
           end.

Definition panic {A} (msg : string) : M A := fun s => (Panic msg, s).

Declare Scope go_scope.
Delimit Scope go_scope with go.
Notation "x <- m ;; k" := (bind m (fun x => k))
  (at level 61, m at next level, right associativity) : go_scope.
Notation "' pat <- m ;; k" := (bind m (fun x => match x with pat => k end))
  (at level 61, pat pattern, m at next level, right associativity) : go_scope.
Notation "m ;; k" := (bind m (fun _ => k))
  (at level 61, right associativity) : go_scope.
Open Scope go_scope.

Definition getClient : M Client := fun s => (Return (sc s), s).

Definition setConn (c : option Conn) : M unit :=
  fun s => (Return tt,
            mkSys (mkClient c (options (sc s)) (addrs (sc s)) (activeAddr (sc s)))
                  (nw s)).

Definition setActiveAddr (i : Z) : M unit :=
  fun s => (Return tt,
            mkSys (mkClient (conn (sc s)) (options (sc s)) (addrs (sc s)) i)
                  (nw s)).

(** A method call through an interface value that is [nil] panics. *)
Definition deref (c : option Conn) : M Conn :=
  match c with
  | Some k => ret k
  | None => panic "invalid memory address or nil pointer dereference"
  end.

(** A slice index expression [a[i]] with its bounds check. *)
Definition slice_at {A} (a : list A) (i : Z) : result A :=
  if ((0 <=? i) && (i <? Z.of_nat (List.length a)))%Z then
    match nth_error a (Z.to_nat i) with
    | Some x => Return x
    | None => Panic "index out of range"
    end
  else Panic "index out of range".

Definition index {A} (a : list A) (i : Z) : M A :=
  fun s => (slice_at a i, s).

(** Go's [%] on [int]: truncated remainder, panics on a zero divisor. *)
Definition go_rem (a b : Z) : M Z :=
  if (b =? 0)%Z then panic "integer divide by zero" else ret (Z.rem a b).

(** ** The client library, as far as the package uses it *)

Section Library.
Variable net : Net.

Definition emit (e : event) (n : NetSt) : NetSt :=
  mkNetSt (live n) (fresh n) (log n ++ [e]).

(** Modelled from the spec: [redis.Dial("tcp", addr, opts...)] of the
    external client library: a connection and [nil], or [nil] and an
    error, as the peer decides. *)
Definition redis_Dial (addr : string) (opts : list DialOption)
  : M (option Conn * option error) :=
  fun s =>
    let n := nw s in
    match on_dial net (log n) addr opts with
    | Some e =>
        (Return (None, Some e),
         mkSys (sc s) (emit (EvDial addr opts (Some e)) n))
    | None =>
        let c := mkConn (fresh n) addr in
        (Return (Some c, None),
         mkSys (sc s)
               (mkNetSt (c :: live n) (S (fresh n))
                        (log n ++ [EvDial addr opts None])))
    end.

(** Modelled from the spec: [c.Do(cmd, args...)] of the external client
    library: the reply and the error, as the peer decides. *)
Definition conn_Do (c : Conn) (cmd : string) (args : list string)
  : M (reply * option error) :=
  fun s =>
    let n := nw s in
    let r := on_do net (log n) c cmd args in
    (Return r, mkSys (sc s) (emit (EvDo c cmd args (snd r)) n)).

(** Modelled from the spec: [c.Close()] of the external client library;
    the package drops the error it returns. *)
Definition conn_Close (c : Conn) : M unit :=
  fun s =>
    let n := nw s in
    (Return tt,
     mkSys (sc s)
           (mkNetSt (filter (fun k => negb (same_conn k c)) (live n))
                    (fresh n) (log n ++ [EvClose c]))).
End Library.

(** Modelled from the spec: the error [redis.ErrNil] of the external client
    library, which the package imports. *)
Definition ErrNil : error := "redigo: nil returned".

(** Modelled from the spec: the name [%T] prints for the type of a reply, in
    the messages of the decoders. *)
Definition type_name (r : reply) : string :=
  match r with
  | RNil => "<nil>"
  | RInt _ => "int64"
  | RBulk _ => "[]uint8"
  | RStatus _ => "string"
  | RArray _ => "[]interface {}"
  | RError _ => "redis.Error"
  end.

(** Modelled from the spec: [redis.Values] of the external client library.
    An error handed in is handed back; an array reply is its elements; any
    other shape is a decode error. *)
Definition redis_Values (r : reply) (err : option error)
  : list reply * option error :=
  match err with
  | Some e => ([], Some e)
  | None =>
      match r with
      | RArray l => (l, None)
      | RNil => ([], Some ErrNil)
      | RError e => ([], Some e)
      | _ => ([], Some ("redigo: unexpected type for Values, got type "
                        ++ type_name r)%string)
      end
  end.

(** Modelled from the spec: [redis.String] of the external client library.
    A bulk string or a status line decodes to its text; anything else is a
    decode error. *)
Definition redis_String (r : reply) (err : option error)
  : string * option error :=
  match err with
  | Some e => ("", Some e)
  | None =>
      match r with
      | RBulk b => (b, None)
      | RStatus s => (s, None)
      | RNil => ("", Some ErrNil)
      | RError e => ("", Some e)
      | _ => ("", Some ("redigo: unexpected type for String, got type "
                        ++ type_name r)%string)
      end
  end.

(** Modelled from the spec: the elements of an array reply decoded as
    strings.  A [nil] element is skipped (its slot keeps the empty string),
    the first element that is no string stops the decoding with the slots
    filled so far. *)
Fixpoint strings_fill (l : list reply) : list string * option error :=
  match l with
  | [] => ([], None)
  | x :: l' =>
      match x with
      | RNil => let (t, e) := strings_fill l' in ("" :: t, e)
      | RBulk b => let (t, e) := strings_fill l' in (b :: t, e)
      | RStatus s => let (t, e) := strings_fill l' in (s :: t, e)
      | _ => (repeat "" (List.length l),
              Some ("redigo: unexpected element type for Strings, got type "
                    ++ type_name x)%string)
      end
  end.

(** Modelled from the spec: [redis.Strings] of the external client library.
    An error handed in is handed back; an array of strings decodes to the
    list of its elements; any other shape is a decode error. *)
Definition redis_Strings (r : reply) (err : option error)
  : list string * option error :=
  match err with
  | Some e => ([], Some e)
  | None =>
      match r with
      | RArray l => strings_fill l
      | RNil => ([], Some ErrNil)
      | RError e => ([], Some e)
      | _ => ([], Some ("redigo: unexpected type for Strings, got type "
                        ++ type_name r)%string)
      end
  end.

(** Modelled from the spec: [strings.Join] of the standard library. *)
Definition strings_Join (l : list string) (sep : string) : string :=
  String.concat sep l.

(** ** The code both copies share *)

(** The pool of the client library, as far as [NewPool] fills it in: two
    numbers and the two callbacks. *)
Record Pool : Type := mkPool {
  MaxIdle : Z;
  IdleTimeout : Duration;
  Dial : M (option Conn * option error);
  TestOnBorrow : option Conn -> Z -> M (option error)
}.

(** [NewClient] (lines 84-89, 266-271). *)
Definition NewClient (addrs : list string) (options : list DialOption) : Client :=
  mkClient None options addrs 0.

Section Shared.
Variable net : Net.

(** [doOnce] (lines 112-127, 295-310). *)
Definition doOnce (cmd : string) (args : list string)
  : M (reply * option error) :=
  c0 <- getClient ;;
  dialErr <- (match conn c0 with
              | None =>
                  addr <- index (addrs c0) (activeAddr c0) ;;
                  ' (c, err) <- redis_Dial net addr (options c0) ;;
                  setConn c ;;
                  ret err
              | Some _ => ret None
              end) ;;
  match dialErr with
  | Some err => ret (RNil, Some err)
  | None =>
      c1 <- getClient ;;
      k <- deref (conn c1) ;;
      ' (reply, err) <- conn_Do net k cmd args ;;
      (match err with
       | Some _ => conn_Close k ;; setConn None
       | None => ret tt
       end) ;;
      ret (reply, err)
  end.

(** The assignment [sc.activeAddr = (sc.activeAddr + 1) % len(sc.addrs)]
    of the retry loop (lines 102, 284). *)
Definition rotate : M unit :=
  c <- getClient ;;
  i <- go_rem (wrap_int (activeAddr c + 1)) (Z.of_nat (List.length (addrs c))) ;;
  setActiveAddr i.

(** [Close] (lines 141-149, 324-332). *)
Definition Close : M unit :=
  c <- getClient ;;
  match conn c with
  | Some k => conn_Close k ;; setConn None
  | None => ret tt
  end.

(** [TestRole] (lines 157-170, 340-353). *)
Definition TestRole (c : option Conn) (expectedRole : string)
  : M (option error) :=
  k <- deref c ;;
  ' (r, e) <- conn_Do net k "ROLE" [] ;;
  let (res, err) := redis_Values r e in
  match err with
  | Some e' => ret (Some e')
  | None =>
      r0 <- index res 0 ;;
      let (role, err') := redis_String r0 None in
      match err' with
      | Some e' => ret (Some e')
      | None =>
          if negb (String.eqb role expectedRole)
          then ret (Some "role check failed")
          else ret None
      end
  end.

(** The [TestOnBorrow] closure (lines 65-70, 247-252). *)
Definition testOnBorrow (c : option Conn) (t : Z) : M (option error) :=
  err <- TestRole c "master" ;;
  match err with
  | Some e => ret (Some ("failed role check: " ++ e)%string)
  | None => ret None
  end.
End Shared.

(** ** The first copy (lines 1-170) *)

Module V1.

(** [type ClusterConfig struct] (lines 25-30). *)
Record ClusterConfig : Type := mkClusterConfig {
  Name : string;
  Sentinels : list string;
  SentinelTimeouts : list Duration;
  RedisTimeouts : list Duration
}.

Section Code.
Variable net : Net.

(** The loop of [do] (lines 98-105) with [n] iterations left; [reply0]
    and [err0] are the variables [reply] and [err].  [sc.addrs] does not
    change, so the bound [len(sc.addrs)] is read once. *)
Fixpoint do_loop (n : nat) (cmd : string) (args : list string)
    (reply0 : reply) (err0 : option error) : M (reply * option error) :=
  match n with
  | O => ret (reply0, err0)
  | S n' =>
      ' (reply, err) <- doOnce net cmd args ;;
      match err with
      | Some _ => rotate ;; do_loop n' cmd args reply err
      | None => do_loop n' cmd args reply err
      end
  end.

(** [do] (lines 94-108). *)
Definition do (cmd : string) (args : list string)
  : M (reply * option error) :=
  c <- getClient ;;
  do_loop (List.length (addrs c)) cmd args RNil None.

(** [MasterAddress] (lines 131-138). *)
Definition MasterAddress (name : string) : M (string * option error) :=
  ' (reply, err) <- do "SENTINEL" ["get-master-addr-by-name"; name] ;;
  let (res, err') := redis_Strings reply err in
  ret (strings_Join res ":", err').

(** The [Dial] closure of [NewPool] (lines 45-64). *)
Definition dial (conf : ClusterConfig) : M (option Conn * option error) :=
  ' (masterAddr, err) <- MasterAddress (Name conf) ;;
  match err with
  | Some e => ret (None, Some ("sentinel: get master address: " ++ e)%string)
  | None =>
      t0 <- index (RedisTimeouts conf) 0 ;;
      t1 <- index (RedisTimeouts conf) 1 ;;
      t2 <- index (RedisTimeouts conf) 2 ;;
      ' (c, err1) <- redis_Dial net masterAddr
                       [DialConnectTimeout t0; DialReadTimeout t1;
                        DialWriteTimeout t2] ;;
      match err1 with
      | Some e => ret (None, Some ("dial error: " ++ e)%string)
      | None =>
          err2 <- TestRole net c "master" ;;
          match err2 with
          | Some e =>
              ret (None, Some ("dial: failed role check: " ++ e)%string)
          | None => ret (c, err1)
          end
      end
  end.

(** [NewPool] (lines 34-74).  The closures capture the pointer
    [sentConn]; the client behind it is returned with the pool, to be
    the [sc] component of the state the callbacks run in. *)
Definition NewPool (conf : ClusterConfig) : result (Pool * Client) :=
  match slice_at (SentinelTimeouts conf) 0 with
  | Panic msg => Panic msg
  | Return t0 =>
  match slice_at (SentinelTimeouts conf) 1 with
  | Panic msg => Panic msg
  | Return t1 =>
  match slice_at (SentinelTimeouts conf) 2 with
  | Panic msg => Panic msg
  | Return t2 =>
      let sentConn :=
        NewClient (Sentinels conf)
          [DialConnectTimeout t0; DialReadTimeout t1; DialWriteTimeout t2] in
      Return (mkPool 10%Z (240 * Second)%Z (dial conf) (testOnBorrow net),
              sentConn)
  end end end.
End Code.

End V1.

(** ** The second copy (lines 172-372) *)

Module V2.

Record Timeouts : Type := mkTimeouts {
  Connect : Duration;
  Read : Duration;
  Write : Duration
}.

(** [type Config struct] (lines 195-208). *)
Record Config : Type := mkConfig {
  Master : string;
  Sentinels : list string;
  SentinelTimeouts : Timeouts;
  RedisTimeouts : Timeouts
}.

(** [Duration.Nanoseconds] is the conversion to [int64]. *)
Definition Nanoseconds (d : Duration) : Z := d.

(** [validateConfig] (lines 355-372). *)
Definition validateConfig (conf : Config) : option error :=
  if String.eqb (Master conf) "" then Some "master is not set"
  else if Nat.eqb (List.length (Sentinels conf)) 0
  then Some "sentinel array is not set"
  else if (Nanoseconds (Connect (SentinelTimeouts conf)) =? 0)%Z
          || (Nanoseconds (Read (SentinelTimeouts conf)) =? 0)%Z
          || (Nanoseconds (Write (SentinelTimeouts conf)) =? 0)%Z
  then Some "sentinel timeouts are not set"
  else if (Nanoseconds (Connect (RedisTimeouts conf)) =? 0)%Z
  then Some "redis timeouts are not set"
  else None.

Section Code.
Variable net : Net.

(** The loop of [do] (lines 280-288) with [n] iterations left; a
    successful attempt leaves the loop ([break]). *)
Fixpoint do_loop (n : nat) (cmd : string) (args : list string)
    (reply0 : reply) (err0 : option error) : M (reply * option error) :=
  match n with
  | O => ret (reply0, err0)
  | S n' =>
      ' (reply, err) <- doOnce net cmd args ;;
      match err with
      | Some _ => rotate ;; do_loop n' cmd args reply err
      | None => ret (reply, err)
      end
  end.

(** [do] (lines 276-291). *)
Definition do (cmd : string) (args : list string)
  : M (reply * option error) :=
  c <- getClient ;;
  do_loop (List.length (addrs c)) cmd args RNil None.

(** [MasterAddress] (lines 314-321). *)
Definition MasterAddress (name : string) : M (string * option error) :=
  ' (reply, err) <- do "SENTINEL" ["get-master-addr-by-name"; name] ;;
  let (res, err') := redis_Strings reply err in
  ret (strings_Join res ":", err').

(** The [Dial] closure of [NewPool] (lines 227-246). *)
Definition dial (conf : Config) : M (option Conn * option error) :=
  ' (masterAddr, err) <- MasterAddress (Master conf) ;;
  match err with
  | Some e => ret (None, Some ("sentinel: get master address: " ++ e)%string)
  | None =>
      ' (c, err1) <- redis_Dial net masterAddr
                       [DialConnectTimeout (Connect (RedisTimeouts conf));
                        DialReadTimeout (Read (RedisTimeouts conf));
                        DialWriteTimeout (Write (RedisTimeouts conf))] ;;
      match err1 with
      | Some e => ret (None, Some ("dial error: " ++ e)%string)
      | None =>
          err2 <- TestRole net c "master" ;;
          match err2 with
          | Some e =>
              ret (None, Some ("dial: failed role check: " ++ e)%string)
          | None => ret (c, err1)
          end
      end
  end.

(** [NewPool] (lines 212-256): the pool (or [nil]) and the error.  The
    client behind the captured pointer [sentConn] is returned with the
    pool, to be the [sc] component of the state the callbacks run in. *)
Definition NewPool (conf : Config) : option (Pool * Client) * option error :=
  match validateConfig conf with
  | Some err => (None, Some err)
  | None =>
      let sentConn :=
        NewClient (Sentinels conf)
          [DialConnectTimeout (Connect (SentinelTimeouts conf));
           DialReadTimeout (Read (SentinelTimeouts conf));
           DialWriteTimeout (Write (SentinelTimeouts conf))] in
      (Some (mkPool 10%Z (240 * Second)%Z (dial conf) (testOnBorrow net),
             sentConn), None)
  end.
End Code.

End V2.

(** ** Observations on a run *)

Definition is_query (e : event) : bool :=
  match e with EvDo _ _ _ _ => true | _ => false end.

Definition is_dial (e : event) : bool :=
  match e with EvDial _ _ _ => true | _ => false end.

(** The number of commands sent. *)
Definition queries (evs : list event) : nat := List.length (filter is_query evs).

(** The number of dials. *)
Definition dials (evs : list event) : nat := List.length (filter is_dial evs).

(** An attempt of the retry loop is one call of [doOnce]: it ends either
    with a dial that fails or with the answer to the command.  The outcomes
    of the attempts of a run, in order. *)
Fixpoint attempts (evs : list event) : list (option error) :=
  match evs with
  | [] => []
  | EvDial _ _ (Some e) :: t => Some e :: attempts t
  | EvDo _ _ _ r :: t => r :: attempts t
  | _ :: t => attempts t
  end.

Definition failed (r : option error) : Prop := r <> None.

(** What a computation adds to the history when run from [s]. *)
Definition events_of {A} (m : M A) (s : Sys) : list event :=
  skipn (List.length (log (nw s))) (log (nw (snd (m s)))).

(** The connections the client holds open: the one in [sc.conn], if any. *)
Definition owned (c : Client) : list Conn :=
  match conn c with
  | Some k => [k]
  | None => []
  end.

(** The client invariant.  [rest] are the open connections that are not the
    client's (those handed to the pool).  The open connections are the
    client's one, if any, and [rest]; identities are distinct and older than
    [fresh]; the connection held was dialed to [addrs[activeAddr]];
    [activeAddr] indexes [addrs], whose length is an [int]. *)
Record Inv (rest : list Conn) (s : Sys) : Prop := mkInv {
  inv_live : live (nw s) = owned (sc s) ++ rest;
  inv_fresh : Forall (fun k => cid k < fresh (nw s)) (live (nw s));
  inv_nodup : NoDup (map cid (live (nw s)));
  inv_peer : forall k, conn (sc s) = Some k ->
      (0 <= activeAddr (sc s))%Z /\
      nth_error (addrs (sc s)) (Z.to_nat (activeAddr (sc s))) = Some (peer k);
  inv_index : addrs (sc s) = [] \/
      (0 <= activeAddr (sc s) < Z.of_nat (List.length (addrs (sc s))))%Z;
  inv_len : (Z.of_nat (List.length (addrs (sc s))) <= max_int)%Z
}.

(** The state right after construction: no connection, an empty history. *)
Definition boot (c : Client) : Sys := mkSys c (mkNetSt [] 0 []).

(** ** Networks to run the code on *)

(** A network whose peers do not change: a peer refuses the dial or accepts
    it, and answers each command in one way. *)
Record Peer : Type := mkPeer {
  refuses : option error;
  answers : string -> reply * option error
}.

Definition static_net (p : string -> Peer) : Net :=
  mkNet (fun _ addr _ => refuses (p addr))
        (fun _ c cmd _ => answers (p (peer c)) cmd).

(** A network that answers the successive commands from a list, whichever
    the peer; every dial is accepted; past the list, the peer is gone. *)
Definition scripted_net (dos : list (reply * option error)) : Net :=
  mkNet (fun _ _ _ => None)
        (fun h _ _ _ => nth (queries h) dos (RNil, Some "EOF")).

(** The client after the rotation of the retry loop: [activeAddr] moved to
    the next address, cyclically. *)
Definition rotated (s : Sys) : Sys :=
  mkSys (mkClient (conn (sc s)) (options (sc s)) (addrs (sc s))
           ((activeAddr (sc s) + 1) mod Z.of_nat (List.length (addrs (sc s)))))
        (nw s).

(** [failed_attempts net cmd args k s s']: starting in [s], [k] attempts in
    a row fail, each followed by the rotation, and leave the state [s']. *)
Inductive failed_attempts (net : Net) (cmd : string) (args : list string)
  : nat -> Sys -> Sys -> Prop :=
| fa_none : forall s, failed_attempts net cmd args 0 s s
| fa_more : forall k s r e s1 s',
    doOnce net cmd args s = (Return (r, Some e), s1) ->
    failed_attempts net cmd args k (rotated s1) s' ->
    failed_attempts net cmd args (S k) s s'.

(** [answered net cmd args host port m s s']: starting in [s], [m] attempts
    in a row succeed, each with a reply that decodes to [host] and [port],
    and leave the state [s']. *)
Inductive answered (net : Net) (cmd : string) (args : list string)
    (host port : string) : nat -> Sys -> Sys -> Prop :=
| ans_none : forall s, answered net cmd args host port 0 s s
| ans_more : forall m s reply s1 s',
    doOnce net cmd args s = (Return (reply, None), s1) ->
    redis_Strings reply None = ([host; port], None) ->
    answered net cmd args host port m s1 s' ->
    answered net cmd args host port (S m) s s'.

(** The command [MasterAddress] sends. *)
Definition master_args (name : string) : list string :=
  ["get-master-addr-by-name"; name].

(** ** Concrete configurations and peers *)

Definition monitors : list string := ["10.0.0.1:26379"; "10.0.0.2:26379"].

Definition short : list DialOption :=
  [DialConnectTimeout Second; DialReadTimeout Second; DialWriteTimeout Second].

Definition addr_reply : reply := RArray [RBulk "10.0.0.9"; RBulk "6379"].

(** The first monitor accepts the connection and times out on the command;
    every other peer answers the master address, and [master] to [ROLE]. *)
Definition first_times_out : Net :=
  static_net (fun a =>
    if String.eqb a "10.0.0.1:26379"
    then mkPeer None (fun _ => (RNil, Some "i/o timeout"))
    else mkPeer None (fun cmd =>
           if String.eqb cmd "ROLE"
           then (RArray [RBulk "master"; RInt 0; RArray []], None)
           else (addr_reply, None))).

(** No monitor accepts a connection; the error names the address. *)
Definition all_down : Net :=
  static_net (fun a =>
    mkPeer (Some ("dial tcp " ++ a ++ ": connection refused")%string)
           (fun _ => (RNil, Some "EOF"))).

(** Every peer answers the master address; to [ROLE] it answers the role
    given. *)
Definition all_up (role : reply) : Net :=
  static_net (fun _ =>
    mkPeer None (fun cmd =>
      if String.eqb cmd "ROLE" then (role, None) else (addr_reply, None))).

(** The client right after [NewClient], before any network activity. *)
Definition s0 : Sys := boot (NewClient monitors short).

(** Three monitors, and a network on which the first command times out, the
    second is answered and the third finds the peer gone. *)
Definition three_monitors : list string :=
  ["10.0.0.1:26379"; "10.0.0.2:26379"; "10.0.0.3:26379"].

Definition s3 : Sys := boot (NewClient three_monitors short).

Definition answers_once : Net :=
  scripted_net [(RNil, Some "i/o timeout"); (addr_reply, None);
                (RNil, Some "EOF")].

(** A configuration of the first copy with no master name, and one with
    nothing set. *)
Definition unnamed : V1.ClusterConfig :=
  V1.mkClusterConfig "" monitors [Second; Second; Second]
                     [Second; Second; Second].

Definition nothing_set : V1.ClusterConfig :=
  V1.mkClusterConfig "" [] [0; 0; 0]%Z [0; 0; 0]%Z.

(** A valid configuration of the second copy. *)
Definition conf_ok : V2.Config :=
  V2.mkConfig "mycluster" monitors
    (V2.mkTimeouts Second Second Second) (V2.mkTimeouts Second Second Second).

(** A connection to a data node. *)
Definition data_conn : Conn := mkConn 0 "10.0.0.9:6379".

(** Either copy's [MasterAddress]. *)
Definition is_MasterAddress (net : Net)
    (f : string -> M (string * option error)) : Prop :=
  f = V1.MasterAddress net \/ f = V2.MasterAddress net.

(** The dial options the [Dial] closures build for the data node. *)
Definition redis_options_V1 (t0 t1 t2 : Duration) : list DialOption :=
  [DialConnectTimeout t0; DialReadTimeout t1; DialWriteTimeout t2].

Definition redis_options (conf : V2.Config) : list DialOption :=
  [DialConnectTimeout (V2.Connect (V2.RedisTimeouts conf));
   DialReadTimeout (V2.Read (V2.RedisTimeouts conf));
   DialWriteTimeout (V2.Write (V2.RedisTimeouts conf))].

(** The dials a run asks for: address and options, in order. *)
Fixpoint dial_requests (evs : list event) : list (string * list DialOption) :=
  match evs with
  | [] => []
  | EvDial addr opts _ :: t => (addr, opts) :: dial_requests t
  | _ :: t => dial_requests t
  end.

(** The address of the monitor the [j]-th attempt of a run from [s] goes
    to when every attempt before it has failed. *)
Definition monitor_at (s : Sys) (j : nat) : string :=
  nth (Z.to_nat ((activeAddr (sc s) + Z.of_nat j)
                 mod Z.of_nat (List.length (addrs (sc s)))))
      (addrs (sc s)) "".

(** A configuration of the second copy whose checked timeouts are negative
    and whose read and write timeouts for the data node are zero. *)
Definition conf_odd : V2.Config :=
  V2.mkConfig "m" ["s:1"]
    (V2.mkTimeouts (-1) (-2) (-3))%Z (V2.mkTimeouts (-4) 0 0)%Z.

(** A client with no address at all. *)
Definition s_empty : Sys := boot (NewClient [] short).

(** ** Tactics *)

Ltac conj := repeat match goal with |- _ /\ _ => split end.

(** Every command of an explicit list of events is followed by the close of
    its connection. *)
Ltac closed_after :=
  let H := fresh "H" in
  intros ? ? ? ? H; cbn in H;
  repeat (destruct H as [H|H]; [try discriminate H; injection H as <- |]);
  try contradiction; cbn; auto.

(** * Verification *)

Unset Implicit Arguments.

(** ** Arithmetic and lists *)

Lemma wrap_int_small x : (- 2 ^ 63 <= x <= max_int)%Z -> wrap_int x = x.
Proof.
  unfold wrap_int, max_int. intros H.
  rewrite Z.mod_small by lia. lia.
Qed.

Lemma filter_other_id (k : Conn) (l : list Conn) :
  ~ In (cid k) (map cid l) ->
  filter (fun c => negb (same_conn c k)) l = l.
Proof.
  induction l as [|c l IH]; simpl; intros H; [reflexivity|].
  unfold same_conn at 1.
  destruct (Nat.eqb_spec (cid c) (cid k)) as [E|E].
  - exfalso. apply H. left. exact E.
  - simpl. f_equal. apply IH. intros HI. apply H. right. exact HI.
Qed.

Lemma filter_close (k : Conn) (rest : list Conn) :
  ~ In (cid k) (map cid rest) ->
  filter (fun c => negb (same_conn c k)) (k :: rest) = rest.
Proof.
  intros H. cbn [filter]. unfold same_conn at 1. rewrite Nat.eqb_refl.
  cbn [negb]. apply filter_other_id. exact H.
Qed.

Lemma fresh_not_in (fr : nat) (l : list Conn) :
  Forall (fun k => cid k < fr) l -> ~ In fr (map cid l).
Proof.
  intros F HI. apply in_map_iff in HI. destruct HI as [x [E HI]].
  rewrite Forall_forall in F. apply F in HI. lia.
Qed.

Lemma Forall_lt_S (fr : nat) (l : list Conn) :
  Forall (fun k => cid k < fr) l -> Forall (fun k => cid k < S fr) l.
Proof. intros F. eapply Forall_impl; [|exact F]. cbn. intros; lia. Qed.

Lemma slice_at_ok {A} (a : list A) (i : Z) :
  (0 <= i < Z.of_nat (List.length a))%Z ->
  exists x, slice_at a i = Return x /\ nth_error a (Z.to_nat i) = Some x.
Proof.
  intros H. unfold slice_at.
  replace ((0 <=? i)%Z && (i <? Z.of_nat (List.length a))%Z) with true
    by (symmetry; apply andb_true_iff; split;
        [apply Z.leb_le | apply Z.ltb_lt]; lia).
  destruct (nth_error a (Z.to_nat i)) as [x|] eqn:E.
  - exists x. split; reflexivity.
  - apply nth_error_None in E. lia.
Qed.

Lemma attempts_app (a b : list event) :
  attempts (a ++ b) = attempts a ++ attempts b.
Proof.
  induction a as [|x a IH]; [reflexivity|].
  destruct x as [? ? [?|]|? ? ? ?|?]; cbn; rewrite IH; reflexivity.
Qed.

Lemma events_of_log {A} (m : M A) (s : Sys) (evs : list event) :
  log (nw (snd (m s))) = log (nw s) ++ evs -> events_of m s = evs.
Proof.
  intros H. unfold events_of. rewrite H.
  rewrite skipn_app, skipn_all, Nat.sub_diag. reflexivity.
Qed.

(** ** One attempt *)

Section Attempt.
Variable net : Net.

(** The state right after construction satisfies the invariant. *)
Lemma Inv_boot (a : list string) (o : list DialOption) :
  (Z.of_nat (List.length a) <= max_int)%Z -> Inv [] (boot (NewClient a o)).
Proof.
  intros H. constructor; cbn [boot NewClient sc nw live fresh log conn addrs
                                 activeAddr owned app map].
  - reflexivity.
  - constructor.
  - constructor.
  - intros k [=].
  - destruct a; [left; reflexivity | right; cbn [List.length]; lia].
  - exact H.
Qed.

(** What one call of [doOnce] does, from a state that satisfies the
    invariant: it returns without panic; it leaves [addrs], [options] and
    [activeAddr] alone; it is one attempt; the invariant holds again; when
    it succeeds the client holds the connection used, which is the one it
    held before if it held one (then nothing is dialed), and one command
    has been sent; when it fails the client holds no connection, and the
    connection the command was sent on, if one was sent, has been closed. *)
Lemma doOnce_spec rest cmd args s :
  Inv rest s -> addrs (sc s) <> [] ->
  exists r e s1 evs,
    doOnce net cmd args s = (Return (r, e), s1) /\
    addrs (sc s1) = addrs (sc s) /\ options (sc s1) = options (sc s) /\
    activeAddr (sc s1) = activeAddr (sc s) /\
    log (nw s1) = log (nw s) ++ evs /\
    attempts evs = [e] /\
    Inv rest s1 /\
    match e with
    | None => exists k, conn (sc s1) = Some k /\ queries evs = 1 /\
          (forall k0, conn (sc s) = Some k0 -> k0 = k /\ dials evs = 0)
    | Some _ => conn (sc s1) = None /\
          forall k c a r, In (EvDo k c a r) evs -> In (EvClose k) evs
    end.
Proof.
  intros I Hne. destruct s as [[c o a i] [lv fr lg]].
  destruct I as [Il If Ind Ip Ii Ilen]. cbn in Il, If, Ind, Ip, Ii, Hne.
  cbn [sc addrs] in Ilen.
  destruct Ii as [Ii|Ii]; [contradiction|].
  unfold doOnce, bind, getClient. cbn [sc conn].
  destruct c as [k|]; unfold owned in Il; cbn in Il; subst lv.
  - inversion Ind as [|? ? Hk Hnd]; subst.
    inversion If as [|? ? Hlt Hf]; subst.
    cbn -[filter]. unfold conn_Do. cbn -[filter].
    destruct (on_do net lg k cmd args) as [r [e|]] eqn:Edo; cbn -[filter].
    + rewrite (@filter_close k rest Hk).
      exists r, (Some e). eexists.
      exists [EvDo k cmd args (Some e); EvClose k].
      split; [reflexivity|]. cbn. rewrite <- app_assoc.
      conj; try reflexivity; [| closed_after].
      constructor; cbn; auto. intros ? [=].
    + exists r, None. eexists. exists [EvDo k cmd args None].
      split; [reflexivity|]. cbn.
      conj; try reflexivity.
      * constructor; cbn; auto.
      * exists k. conj; [reflexivity | reflexivity |].
        intros k0 [= <-]. split; reflexivity.
  - unfold index. cbn.
    destruct (slice_at_ok a i Ii) as [addr [Ea Enth]]. rewrite Ea.
    unfold redis_Dial. cbn -[filter].
    destruct (on_dial net lg addr o) as [e|] eqn:Ed; cbn -[filter].
    + exists RNil, (Some e). eexists. exists [EvDial addr o (Some e)].
      split; [reflexivity|]. cbn.
      conj; try reflexivity; [| closed_after].
      constructor; cbn; auto.
    + unfold conn_Do. cbn -[filter].
      set (k := mkConn fr addr).
      assert (Hk : ~ In (cid k) (map cid rest))
        by (apply fresh_not_in; exact If).
      destruct (on_do net (lg ++ [EvDial addr o None]) k cmd args)
        as [r [e|]] eqn:Edo; cbn -[filter].
      * rewrite (@filter_close k rest Hk).
        exists r, (Some e). eexists.
        exists [EvDial addr o None; EvDo k cmd args (Some e); EvClose k].
        split; [reflexivity|]. cbn. repeat rewrite <- app_assoc.
        conj; try reflexivity; [| closed_after].
        constructor; cbn; auto using Forall_lt_S.
      * exists r, None. eexists.
        exists [EvDial addr o None; EvDo k cmd args None].
        split; [reflexivity|]. cbn. repeat rewrite <- app_assoc.
        conj; try reflexivity.
        -- constructor; cbn; auto.
           ++ constructor; [cbn; lia|]. apply Forall_lt_S. exact If.
           ++ constructor; assumption.
           ++ intros k0 [= <-]. split; [lia | exact Enth].
        -- exists k. conj; [reflexivity | reflexivity |]. intros k0 [=].
Qed.
End Attempt.

Lemma last_cons {A} (a d : A) (l : list A) : last (a :: l) d = last l a.
Proof.
  revert a d. induction l as [|b l IH]; intros a d; [reflexivity|].
  change (last (a :: b :: l) d) with (last (b :: l) d).
  rewrite (IH b d), (IH b a). reflexivity.
Qed.

(** The rotation, where the loop performs it (after a failed attempt, on a
    non-empty list): no panic, no overflow, and the index moves to the next
    address, cyclically. *)
Lemma rotate_spec rest s :
  Inv rest s -> addrs (sc s) <> [] -> conn (sc s) = None ->
  rotate s = (Return tt, rotated s) /\ Inv rest (rotated s).
Proof.
  intros I Hne Hc. destruct I as [Il If Ind Ip Ii Ilen].
  destruct Ii as [Ii|Ii]; [contradiction|].
  assert (Hlen : (0 < Z.of_nat (List.length (addrs (sc s))))%Z) by lia.
  split.
  - unfold rotate, bind, getClient, go_rem, setActiveAddr, rotated.
    destruct (Z.eqb_spec (Z.of_nat (List.length (addrs (sc s)))) 0) as [E|E];
      [lia|].
    cbn. rewrite wrap_int_small by (unfold max_int in *; lia).
    rewrite Z.rem_mod_nonneg by lia. reflexivity.
  - constructor; cbn; auto.
    + intros k Hk. rewrite Hc in Hk. discriminate.
    + right. apply Z.mod_pos_bound. exact Hlen.
Qed.

(** ** The retry loops *)

Section Loops.
Variable net : Net.

(** A failed attempt and the rotation after it, as one step. *)
Lemma failed_step rest cmd args s r e s1 :
  Inv rest s -> addrs (sc s) <> [] ->
  doOnce net cmd args s = (Return (r, Some e), s1) ->
  rotate s1 = (Return tt, rotated s1) /\ Inv rest (rotated s1) /\
  addrs (sc (rotated s1)) = addrs (sc s) /\
  options (sc (rotated s1)) = options (sc s) /\
  conn (sc (rotated s1)) = None /\
  live (nw (rotated s1)) = rest /\
  activeAddr (sc (rotated s1)) =
    ((activeAddr (sc s) + 1) mod Z.of_nat (List.length (addrs (sc s))))%Z /\
  exists evs, log (nw (rotated s1)) = log (nw s) ++ evs /\
              events_of (doOnce net cmd args) s = evs /\
              attempts evs = [Some e] /\
              forall k c a r, In (EvDo k c a r) evs -> In (EvClose k) evs.
Proof.
  intros I Hne Hd.
  destruct (doOnce_spec net rest cmd args s I Hne)
    as (r' & e' & s1' & evs & Hd' & Ha & Ho & Hi & Hl & Hat & I1 & Hc).
  rewrite Hd in Hd'. injection Hd' as <- <- <-.
  destruct Hc as [Hc Hclosed].
  assert (Hne1 : addrs (sc s1) <> []) by (rewrite Ha; exact Hne).
  destruct (rotate_spec rest s1 I1 Hne1 Hc) as [Hr I2].
  conj; auto.
  - cbn. rewrite (inv_live I1). unfold owned. rewrite Hc. reflexivity.
  - cbn. rewrite Hi, Ha. reflexivity.
  - exists evs. conj; try assumption.
    apply events_of_log. rewrite Hd. exact Hl.
Qed.

Lemma V2_fail_unfold rest n cmd args r0 e0 s r e s1 :
  Inv rest s -> addrs (sc s) <> [] ->
  doOnce net cmd args s = (Return (r, Some e), s1) ->
  V2.do_loop net (S n) cmd args r0 e0 s =
  V2.do_loop net n cmd args r (Some e) (rotated s1).
Proof.
  intros I Hne Hd. destruct (failed_step rest cmd args s r e s1 I Hne Hd) as (Hr & _).
  cbn [V2.do_loop]. unfold bind at 1. rewrite Hd.
  unfold bind at 1. rewrite Hr. reflexivity.
Qed.

Lemma V1_fail_unfold rest n cmd args r0 e0 s r e s1 :
  Inv rest s -> addrs (sc s) <> [] ->
  doOnce net cmd args s = (Return (r, Some e), s1) ->
  V1.do_loop net (S n) cmd args r0 e0 s =
  V1.do_loop net n cmd args r (Some e) (rotated s1).
Proof.
  intros I Hne Hd. destruct (failed_step rest cmd args s r e s1 I Hne Hd) as (Hr & _).
  cbn [V1.do_loop]. unfold bind at 1. rewrite Hd.
  unfold bind at 1. rewrite Hr. reflexivity.
Qed.

Lemma V2_ok_unfold n cmd args r0 e0 s r s1 :
  doOnce net cmd args s = (Return (r, None), s1) ->
  V2.do_loop net (S n) cmd args r0 e0 s = (Return (r, None), s1).
Proof.
  intros Hd. cbn [V2.do_loop]. unfold bind at 1. rewrite Hd. reflexivity.
Qed.

Lemma V1_ok_unfold n cmd args r0 e0 s r s1 :
  doOnce net cmd args s = (Return (r, None), s1) ->
  V1.do_loop net (S n) cmd args r0 e0 s =
  V1.do_loop net n cmd args r None s1.
Proof.
  intros Hd. cbn [V1.do_loop]. unfold bind at 1. rewrite Hd. reflexivity.
Qed.

(** The loop of the second copy: no panic, the invariant, and when every
    attempt made has failed there were [n] of them and the error returned
    is that of the last. *)
Lemma V2_do_loop_spec rest cmd args n :
  forall s r0 e0,
  Inv rest s -> (n = 0 \/ addrs (sc s) <> []) ->
  exists r e s' evs,
    V2.do_loop net n cmd args r0 e0 s = (Return (r, e), s') /\
    Inv rest s' /\
    addrs (sc s') = addrs (sc s) /\ options (sc s') = options (sc s) /\
    log (nw s') = log (nw s) ++ evs /\
    (Forall failed (attempts evs) ->
     List.length (attempts evs) = n /\ e = last (attempts evs) e0).
Proof.
  induction n as [|n IH]; intros s r0 e0 I Hn.
  - exists r0, e0, s, []. cbn. rewrite app_nil_r. conj; auto.
  - destruct Hn as [Hn|Hne]; [discriminate|].
    destruct (doOnce_spec net rest cmd args s I Hne)
      as (r & e & s1 & evs & Hd & Ha & Ho & Hi & Hl & Hat & I1 & Hc).
    destruct e as [e|].
    + rewrite (V2_fail_unfold rest n cmd args r0 e0 s r e s1 I Hne Hd).
      destruct (failed_step rest cmd args s r e s1 I Hne Hd) as (_ & I2 & Ha2 & Ho2 & _ & _ & _ & _).
      assert (Hn2 : n = 0 \/ addrs (sc (rotated s1)) <> [])
        by (right; rewrite Ha2; exact Hne).
      destruct (IH (rotated s1) r (Some e) I2 Hn2)
        as (r' & e' & s' & evs' & Hrun & I' & Ha' & Ho' & Hl' & Hall).
      exists r', e', s', (evs ++ evs'). rewrite Hrun.
      conj; auto; try congruence.
      * rewrite Hl'. cbn. rewrite Hl. symmetry. apply app_assoc.
      * intros H. rewrite attempts_app, Hat in *. cbn [app] in *.
        inversion H as [|? ? Hf Hrest]; subst.
        destruct (Hall Hrest) as [Hlen He].
        split; [cbn; rewrite Hlen; reflexivity |].
        rewrite last_cons. exact He.
    + rewrite (V2_ok_unfold n cmd args r0 e0 s r s1 Hd).
      exists r, None, s1, evs. conj; auto.
      intros H. rewrite Hat in H. inversion H as [|? ? Hf Hrest]; subst.
      exfalso. apply Hf. reflexivity.
Qed.


(** The loop of the first copy: the same, although it goes on after a
    successful attempt. *)
Lemma V1_do_loop_spec rest cmd args n :
  forall s r0 e0,
  Inv rest s -> (n = 0 \/ addrs (sc s) <> []) ->
  exists r e s' evs,
    V1.do_loop net n cmd args r0 e0 s = (Return (r, e), s') /\
    Inv rest s' /\
    addrs (sc s') = addrs (sc s) /\ options (sc s') = options (sc s) /\
    log (nw s') = log (nw s) ++ evs /\
    (Forall failed (attempts evs) ->
     List.length (attempts evs) = n /\ e = last (attempts evs) e0).
Proof.
  induction n as [|n IH]; intros s r0 e0 I Hn.
  - exists r0, e0, s, []. cbn. rewrite app_nil_r. conj; auto.
  - destruct Hn as [Hn|Hne]; [discriminate|].
    destruct (doOnce_spec net rest cmd args s I Hne)
      as (r & e & s1 & evs & Hd & Ha & Ho & Hi & Hl & Hat & I1 & Hc).
    destruct e as [e|].
    + rewrite (V1_fail_unfold rest n cmd args r0 e0 s r e s1 I Hne Hd).
      destruct (failed_step rest cmd args s r e s1 I Hne Hd)
        as (_ & I2 & Ha2 & Ho2 & _ & _ & _ & _).
      assert (Hn2 : n = 0 \/ addrs (sc (rotated s1)) <> [])
        by (right; rewrite Ha2; exact Hne).
      destruct (IH (rotated s1) r (Some e) I2 Hn2)
        as (r' & e' & s' & evs' & Hrun & I' & Ha' & Ho' & Hl' & Hall).
      exists r', e', s', (evs ++ evs'). rewrite Hrun.
      conj; auto; try congruence.
      * rewrite Hl'. cbn. rewrite Hl. symmetry. apply app_assoc.
      * intros H. rewrite attempts_app, Hat in *. cbn [app] in *.
        inversion H as [|? ? Hf Hrest]; subst.
        destruct (Hall Hrest) as [Hlen He].
        split; [cbn; rewrite Hlen; reflexivity |].
        rewrite last_cons. exact He.
    + rewrite (V1_ok_unfold n cmd args r0 e0 s r s1 Hd).
      assert (Hn1 : n = 0 \/ addrs (sc s1) <> [])
        by (right; rewrite Ha; exact Hne).
      destruct (IH s1 r None I1 Hn1)
        as (r' & e' & s' & evs' & Hrun & I' & Ha' & Ho' & Hl' & Hall).
      exists r', e', s', (evs ++ evs'). rewrite Hrun.
      conj; auto; try congruence.
      * rewrite Hl', Hl. symmetry. apply app_assoc.
      * intros H. rewrite attempts_app, Hat in H. cbn [app] in H.
        inversion H as [|? ? Hf Hrest]; subst.
        exfalso. apply Hf. reflexivity.
Qed.

Lemma nonempty_or_zero (a : list string) : List.length a = 0 \/ a <> [].
Proof. destruct a; [left; reflexivity | right; discriminate]. Qed.

(** [MasterAddress] of the second copy. *)
Lemma V2_MasterAddress_spec rest name s :
  Inv rest s ->
  exists addr e s' evs,
    V2.MasterAddress net name s = (Return (addr, e), s') /\
    Inv rest s' /\
    log (nw s') = log (nw s) ++ evs /\
    (Forall failed (attempts evs) ->
     List.length (attempts evs) = List.length (addrs (sc s)) /\
     (addrs (sc s) <> [] -> addr = "" /\ e = last (attempts evs) None)).
Proof.
  intros I.
  destruct (V2_do_loop_spec rest "SENTINEL" (master_args name)
              (List.length (addrs (sc s))) s RNil None I
              (nonempty_or_zero _))
    as (r & e & s' & evs & Hrun & I' & Ha & Ho & Hl & Hall).
  unfold V2.MasterAddress, V2.do, bind, getClient.
  fold (master_args name). rewrite Hrun.
  destruct (redis_Strings r e) as [res e'] eqn:Es.
  exists (strings_Join res ":"), e', s', evs. conj; auto.
  intros H. destruct (Hall H) as [Hlen He]. split; [exact Hlen|].
  intros Hne. destruct (attempts evs) as [|x l] eqn:Eat.
  - cbn in Hlen. destruct (addrs (sc s)); [contradiction | discriminate].
  - assert (Hin : In (last (x :: l) None) (x :: l)).
    { destruct (@exists_last _ (x :: l)) as [l' [y Ey]]; [discriminate|].
      rewrite Ey, last_last. apply in_or_app. right. left. reflexivity. }
    rewrite Forall_forall in H. apply H in Hin.
    rewrite <- He in Hin. destruct e as [e|]; [|exfalso; apply Hin; reflexivity].
    cbn in Es. injection Es as <- <-. split; [reflexivity | exact He].
Qed.

(** [MasterAddress] of the first copy. *)
Lemma V1_MasterAddress_spec rest name s :
  Inv rest s ->
  exists addr e s' evs,
    V1.MasterAddress net name s = (Return (addr, e), s') /\
    Inv rest s' /\
    log (nw s') = log (nw s) ++ evs /\
    (Forall failed (attempts evs) ->
     List.length (attempts evs) = List.length (addrs (sc s)) /\
     (addrs (sc s) <> [] -> addr = "" /\ e = last (attempts evs) None)).
Proof.
  intros I.
  destruct (V1_do_loop_spec rest "SENTINEL" (master_args name)
              (List.length (addrs (sc s))) s RNil None I
              (nonempty_or_zero _))
    as (r & e & s' & evs & Hrun & I' & Ha & Ho & Hl & Hall).
  unfold V1.MasterAddress, V1.do, bind, getClient.
  fold (master_args name). rewrite Hrun.
  destruct (redis_Strings r e) as [res e'] eqn:Es.
  exists (strings_Join res ":"), e', s', evs. conj; auto.
  intros H. destruct (Hall H) as [Hlen He]. split; [exact Hlen|].
  intros Hne. destruct (attempts evs) as [|x l] eqn:Eat.
  - cbn in Hlen. destruct (addrs (sc s)); [contradiction | discriminate].
  - assert (Hin : In (last (x :: l) None) (x :: l)).
    { destruct (@exists_last _ (x :: l)) as [l' [y Ey]]; [discriminate|].
      rewrite Ey, last_last. apply in_or_app. right. left. reflexivity. }
    rewrite Forall_forall in H. apply H in Hin.
    rewrite <- He in Hin. destruct e as [e|]; [|exfalso; apply Hin; reflexivity].
    cbn in Es. injection Es as <- <-. split; [reflexivity | exact He].
Qed.
End Loops.

(** ** The retry loop: success and failure of an attempt *)

Section Retry.
Variable net : Net.

(** The second copy of [do] (lines 276-291) stops at the first attempt
    that succeeds: it returns that reply, sends one command, leaves
    [activeAddr] and the connection used in place, and the next attempt
    sends its command on that same connection without dialing. *)
Theorem V2_success_stops rest cmd args s r s1 :
  Inv rest s -> addrs (sc s) <> [] ->
  doOnce net cmd args s = (Return (r, None), s1) ->
  V2.do net cmd args s = (Return (r, None), s1) /\
  queries (events_of (V2.do net cmd args) s) = 1 /\
  activeAddr (sc s1) = activeAddr (sc s) /\
  exists k, conn (sc s1) = Some k /\
    (forall k0, conn (sc s) = Some k0 -> k0 = k) /\
    forall cmd' args',
      let e := snd (on_do net (log (nw s1)) k cmd' args') in
      events_of (doOnce net cmd' args') s1
      = EvDo k cmd' args' e
          :: match e with Some _ => [EvClose k] | None => [] end.
Proof.
  intros I Hne Hd.
  destruct (doOnce_spec net rest cmd args s I Hne)
    as (r' & e' & s1' & evs & Hd' & Ha & Ho & Hi & Hl & Hat & I1 & Hc).
  rewrite Hd in Hd'. injection Hd' as <- <- <-.
  destruct Hc as (k & Hc & Hq & Hsame).
  assert (Hdo : V2.do net cmd args s = (Return (r, None), s1)).
  { unfold V2.do, bind, getClient.
    destruct (addrs (sc s)) as [|a l] eqn:Ea; [contradiction|].
    cbn [List.length]. apply V2_ok_unfold. exact Hd. }
  conj.
  - exact Hdo.
  - rewrite (events_of_log (V2.do net cmd args) s evs); [exact Hq|].
    rewrite Hdo. exact Hl.
  - exact Hi.
  - exists k. conj; [exact Hc | intros k0 Hk0; apply (Hsame k0 Hk0) |].
    intros cmd' args'. apply events_of_log.
    destruct s1 as [[c1 o1 a1 i1] n1]. cbn in Hc. subst c1.
    unfold doOnce, bind, getClient, conn_Do. cbn.
    destruct (on_do net (log n1) k cmd' args') as [r2 [e2|]]; cbn.
    + rewrite <- app_assoc. reflexivity.
    + reflexivity.
Qed.

(** An attempt that returns an error, from [redis.Dial] or from [Conn.Do],
    leaves the client without a connection and with none of its connections
    open: a connection the command was sent on has been closed.  The loop
    of either copy goes on from the state in which [activeAddr] is
    [(activeAddr + 1) mod len(addrs)], the other fields of the client are as
    before the attempt and the network is as the attempt left it. *)
Theorem failed_attempt_rotates rest cmd args s r e s1 :
  Inv rest s -> addrs (sc s) <> [] ->
  doOnce net cmd args s = (Return (r, Some e), s1) ->
  conn (sc s1) = None /\ live (nw s1) = rest /\
  (forall k c a r',
      In (EvDo k c a r') (events_of (doOnce net cmd args) s) ->
      In (EvClose k) (events_of (doOnce net cmd args) s)) /\
  sc (rotated s1)
    = mkClient None (options (sc s)) (addrs (sc s))
        ((activeAddr (sc s) + 1) mod Z.of_nat (List.length (addrs (sc s)))) /\
  nw (rotated s1) = nw s1 /\
  (forall n r0 e0,
      V1.do_loop net (S n) cmd args r0 e0 s
      = V1.do_loop net n cmd args r (Some e) (rotated s1)) /\
  (forall n r0 e0,
      V2.do_loop net (S n) cmd args r0 e0 s
      = V2.do_loop net n cmd args r (Some e) (rotated s1)).
Proof.
  intros I Hne Hd.
  destruct (failed_step net rest cmd args s r e s1 I Hne Hd)
    as (_ & _ & Ha & Ho & Hc & Hl & Hact & evs & _ & Hev & _ & Hclosed).
  conj.
  - exact Hc.
  - exact Hl.
  - rewrite Hev. exact Hclosed.
  - destruct (rotated s1) as [[c o a i] n] eqn:E. cbn in *. congruence.
  - reflexivity.
  - intros n r0 e0. apply (V1_fail_unfold net rest); assumption.
  - intros n r0 e0. apply (V2_fail_unfold net rest); assumption.
Qed.

(** Claim C3.  If every attempt made by [MasterAddress] (either copy)
    fails, the attempts are as many as there are addresses, and on a
    non-empty list the call returns the error of the last attempt, with
    the empty string. *)
Theorem all_fail_exactly_n_attempts resolve rest name s :
  is_MasterAddress net resolve ->
  Inv rest s ->
  Forall failed (attempts (events_of (resolve name) s)) ->
  List.length (attempts (events_of (resolve name) s))
    = List.length (addrs (sc s)) /\
  (addrs (sc s) <> [] ->
   exists e, fst (resolve name s) = Return ("", Some e) /\
             last (attempts (events_of (resolve name) s)) None = Some e).
Proof.
  intros Hres I Hall.
  assert (Hspec : exists addr e s' evs,
    resolve name s = (Return (addr, e), s') /\ Inv rest s' /\
    log (nw s') = log (nw s) ++ evs /\
    (Forall failed (attempts evs) ->
     List.length (attempts evs) = List.length (addrs (sc s)) /\
     (addrs (sc s) <> [] -> addr = "" /\ e = last (attempts evs) None))).
  { destruct Hres as [-> | ->];
      [apply V1_MasterAddress_spec | apply V2_MasterAddress_spec]; exact I. }
  destruct Hspec as (addr & e & s' & evs & Hrun & _ & Hl & Hfail).
  assert (Hev : events_of (resolve name) s = evs)
    by (apply events_of_log; rewrite Hrun; exact Hl).
  rewrite Hev in *. destruct (Hfail Hall) as [Hlen Hlast].
  split; [exact Hlen|]. intros Hne. destruct (Hlast Hne) as [-> He].
  rewrite Hrun. cbn [fst].
  destruct e as [e|].
  - exists e. split; [reflexivity | symmetry; exact He].
  - exfalso. destruct (attempts evs) as [|x l] eqn:Eat.
    + cbn in Hlen. destruct (addrs (sc s)); [contradiction | discriminate].
    + assert (Hin : In (last (x :: l) None) (x :: l)).
      { destruct (@exists_last _ (x :: l)) as [l' [y Ey]]; [discriminate|].
        rewrite Ey, last_last. apply in_or_app. right. left. reflexivity. }
      rewrite Forall_forall in Hall. apply Hall in Hin.
      apply Hin. symmetry. exact He.
Qed.

(** After [k] failed attempts the loop of the second copy is where it
    would be when started [k] iterations later in the state reached. *)
Lemma failed_attempts_loop rest cmd args k s0 s :
  failed_attempts net cmd args k s0 s ->
  Inv rest s0 -> addrs (sc s0) <> [] ->
  Inv rest s /\ addrs (sc s) = addrs (sc s0) /\
  forall m r0 e0, exists r' e',
    V2.do_loop net (k + m) cmd args r0 e0 s0 =
    V2.do_loop net m cmd args r' e' s.
Proof.
  induction 1 as [s | k s r e s1 s' Hd Hfa IH]; intros I Hne.
  - conj; auto. intros m r0 e0. exists r0, e0. reflexivity.
  - destruct (failed_step net rest cmd args s r e s1 I Hne Hd)
      as (_ & I2 & Ha2 & _).
    assert (Hne2 : addrs (sc (rotated s1)) <> []) by (rewrite Ha2; exact Hne).
    destruct (IH I2 Hne2) as (I' & Ha' & Hloop).
    conj; auto; [congruence|].
    intros m r0 e0. destruct (Hloop m r (Some e)) as (r' & e' & Hrun).
    exists r', e'. cbn [Nat.add].
    rewrite (V2_fail_unfold net rest (k + m) cmd args r0 e0 s r e s1 I Hne Hd).
    exact Hrun.
Qed.

(** The same for the loop of the first copy. *)
Lemma V1_failed_attempts_loop rest cmd args k s0 s :
  failed_attempts net cmd args k s0 s ->
  Inv rest s0 -> addrs (sc s0) <> [] ->
  forall m r0 e0, exists r' e',
    V1.do_loop net (k + m) cmd args r0 e0 s0 =
    V1.do_loop net m cmd args r' e' s.
Proof.
  induction 1 as [s | k s r e s1 s' Hd Hfa IH]; intros I Hne m r0 e0.
  - exists r0, e0. reflexivity.
  - destruct (failed_step net rest cmd args s r e s1 I Hne Hd)
      as (_ & I2 & Ha2 & _).
    assert (Hne2 : addrs (sc (rotated s1)) <> []) by (rewrite Ha2; exact Hne).
    destruct (IH I2 Hne2 m r (Some e)) as (r' & e' & Hrun).
    exists r', e'. cbn [Nat.add].
    rewrite (V1_fail_unfold net rest (k + m) cmd args r0 e0 s r e s1 I Hne Hd).
    exact Hrun.
Qed.

(** The loop of the first copy on a monitor that goes on answering: it
    makes all its attempts, on the same address, and returns the last
    reply. *)
Lemma V1_answered_loop rest cmd args host port m s s' :
  answered net cmd args host port m s s' ->
  Inv rest s -> addrs (sc s) <> [] ->
  activeAddr (sc s') = activeAddr (sc s) /\
  forall r0, redis_Strings r0 None = ([host; port], None) ->
    exists r', V1.do_loop net m cmd args r0 None s = (Return (r', None), s') /\
               redis_Strings r' None = ([host; port], None).
Proof.
  induction 1 as [s | m s reply s1 s' Hd Hs Han IH]; intros I Hne.
  - split; [reflexivity|]. intros r0 H0. exists r0. split; [reflexivity | exact H0].
  - destruct (doOnce_spec net rest cmd args s I Hne)
      as (r' & e' & s1' & evs & Hd' & Ha & _ & Hi & _ & _ & I1 & _).
    rewrite Hd in Hd'. injection Hd' as <- <- <-.
    assert (Hne1 : addrs (sc s1) <> []) by (rewrite Ha; exact Hne).
    destruct (IH I1 Hne1) as [Hact Hloop].
    split; [congruence|]. intros r0 _.
    rewrite (V1_ok_unfold net m cmd args r0 None s reply s1 Hd).
    apply Hloop. exact Hs.
Qed.

(** Claim C4.  On a list of [n] addresses: when an attempt against
    [addrs[i]] fails, after any number of failed attempts, and the next
    attempt, against [addrs[(i+1) mod n]], succeeds with a reply that
    decodes to host and port, then [MasterAddress] of the second copy
    returns [host:port] in the state that attempt left, [activeAddr] is
    [(i+1) mod n] and the client holds the connection dialed to that
    address.  The first copy makes the attempts that remain, against the
    same monitor; when these succeed with host and port as well, it returns
    [host:port] and leaves [activeAddr] at [(i+1) mod n]. *)
Theorem failover_to_next_monitor rest name k s0 s r e s1 reply host port s2 :
  Inv rest s0 ->
  failed_attempts net "SENTINEL" (master_args name) k s0 s ->
  k + 2 <= List.length (addrs (sc s0)) ->
  doOnce net "SENTINEL" (master_args name) s = (Return (r, Some e), s1) ->
  doOnce net "SENTINEL" (master_args name) (rotated s1)
    = (Return (reply, None), s2) ->
  redis_Strings reply None = ([host; port], None) ->
  let n := List.length (addrs (sc s0)) in
  let next := ((activeAddr (sc s) + 1) mod Z.of_nat n)%Z in
  (V2.MasterAddress net name s0
     = (Return ((host ++ ":" ++ port)%string, None), s2) /\
   activeAddr (sc s2) = next /\
   exists c, conn (sc s2) = Some c /\
     nth_error (addrs (sc s0)) (Z.to_nat next) = Some (peer c)) /\
  (forall s',
     answered net "SENTINEL" (master_args name) host port (n - (k + 2)) s2 s' ->
     V1.MasterAddress net name s0
       = (Return ((host ++ ":" ++ port)%string, None), s') /\
     activeAddr (sc s') = next).
Proof.
  intros I Hfa Hk Hd1 Hd2 Hstr n next.
  assert (Hne : addrs (sc s0) <> [])
    by (intros E; rewrite E in Hk; cbn in Hk; lia).
  destruct (failed_attempts_loop rest _ _ k s0 s Hfa I Hne)
    as (Is & Has & Hloop).
  assert (Hnes : addrs (sc s) <> []) by (rewrite Has; exact Hne).
  destruct (failed_step net rest _ _ s r e s1 Is Hnes Hd1)
    as (_ & I2 & Ha2 & _ & _ & _ & Hact & _).
  assert (Hne2 : addrs (sc (rotated s1)) <> []) by (rewrite Ha2; exact Hnes).
  destruct (doOnce_spec net rest "SENTINEL" (master_args name) (rotated s1)
              I2 Hne2)
    as (r' & e' & s2' & evs & Hd' & Ha & Ho & Hi & Hl & Hat & I3 & Hc).
  rewrite Hd2 in Hd'. injection Hd' as <- <- <-.
  destruct Hc as (c & Hc & _).
  assert (Hnext : activeAddr (sc s2) = next)
    by (unfold next, n; rewrite Hi, Hact, Has; reflexivity).
  assert (Hn : n = k + S (S (n - (k + 2)))) by (unfold n; lia).
  split; [conj |].
  - unfold V2.MasterAddress, V2.do, bind, getClient.
    fold (master_args name). fold n. rewrite Hn.
    destruct (Hloop (S (S (n - (k + 2)))) RNil None) as (r' & e' & ->).
    rewrite (V2_fail_unfold net rest _ _ _ r' e' s r e s1 Is Hnes Hd1).
    rewrite (V2_ok_unfold net _ _ _ r (Some e) _ _ _ Hd2).
    rewrite Hstr. reflexivity.
  - exact Hnext.
  - exists c. split; [exact Hc|].
    destruct (inv_peer I3 Hc) as [_ Hp].
    rewrite Hnext, Ha, Ha2, Has in Hp. exact Hp.
  - intros s' Hans.
    assert (Hne3 : addrs (sc s2) <> []) by (rewrite Ha; exact Hne2).
    destruct (V1_answered_loop rest _ _ host port _ s2 s' Hans I3 Hne3)
      as [Hact' Hrun].
    destruct (Hrun reply Hstr) as (r' & Hrun' & Hs').
    split; [| rewrite Hact'; exact Hnext].
    unfold V1.MasterAddress, V1.do, bind, getClient.
    fold (master_args name). fold n. rewrite Hn.
    destruct (V1_failed_attempts_loop rest _ _ k s0 s Hfa I Hne
                (S (S (n - (k + 2)))) RNil None) as (r0 & e0 & ->).
    rewrite (V1_fail_unfold net rest _ _ _ r0 e0 s r e s1 Is Hnes Hd1).
    rewrite (V1_ok_unfold net _ _ _ r (Some e) _ _ _ Hd2).
    rewrite Hrun', Hs'. reflexivity.
Qed.

(** Claim C8.  When the query succeeds with a reply that decodes to the
    two strings host and port, [MasterAddress] (either copy) returns
    [host:port] and no error. *)
Theorem master_address_joins name s reply host port s' :
  redis_Strings reply None = ([host; port], None) ->
  (V1.do net "SENTINEL" (master_args name) s = (Return (reply, None), s') ->
   V1.MasterAddress net name s
     = (Return ((host ++ ":" ++ port)%string, None), s')) /\
  (V2.do net "SENTINEL" (master_args name) s = (Return (reply, None), s') ->
   V2.MasterAddress net name s
     = (Return ((host ++ ":" ++ port)%string, None), s')).
Proof.
  intros Hs. split; intros Hdo.
  - unfold V1.MasterAddress, bind. fold (master_args name).
    rewrite Hdo, Hs. reflexivity.
  - unfold V2.MasterAddress, bind. fold (master_args name).
    rewrite Hdo, Hs. reflexivity.
Qed.
End Retry.

(** ** The role check *)

Section Role.
Variable net : Net.

(** Claim C6.  [TestRole] returns [nil] exactly when the answer to [ROLE]
    is an array whose first element decodes to a string equal to the
    expected role; an error of the query, a reply that is no array, a
    first element that is no string, and a different string each make it
    return an error. *)
Theorem TestRole_iff c role s :
  let answer := on_do net (log (nw s)) c "ROLE" [] in
  (fst (TestRole net (Some c) role s) = Return None <->
   exists x l, answer = (RArray (x :: l), None) /\
               redis_String x None = (role, None)) /\
  (forall e, snd answer = Some e ->
     fst (TestRole net (Some c) role s) = Return (Some e)) /\
  (forall e, snd answer = None ->
     snd (redis_Values (fst answer) None) = Some e ->
     fst (TestRole net (Some c) role s) = Return (Some e)) /\
  (forall x l e, answer = (RArray (x :: l), None) ->
     snd (redis_String x None) = Some e ->
     fst (TestRole net (Some c) role s) = Return (Some e)) /\
  (forall x l role', answer = (RArray (x :: l), None) ->
     redis_String x None = (role', None) -> role' <> role ->
     fst (TestRole net (Some c) role s) = Return (Some "role check failed")).
Proof.
  intros answer.
  assert (Hrun : fst (TestRole net (Some c) role s) =
    let (res, err) := redis_Values (fst answer) (snd answer) in
    match err with
    | Some e => Return (Some e)
    | None =>
        match res with
        | [] => Panic "index out of range"
        | x :: _ =>
            let (role', err') := redis_String x None in
            match err' with
            | Some e => Return (Some e)
            | None =>
                if String.eqb role' role then Return None
                else Return (Some "role check failed")
            end
        end
    end).
  { unfold TestRole, bind, deref, ret, conn_Do.
    cbn -[redis_Values redis_String]. fold answer.
    destruct answer as [r e]. cbn [fst snd].
    destruct (redis_Values r e) as [res [e'|]]; [reflexivity|].
    destruct res as [|x l]; [reflexivity|].
    unfold index, slice_at. cbn -[redis_String].
    destruct (redis_String x None) as [role' [e'|]]; [reflexivity|].
    destruct (String.eqb role' role); reflexivity. }
  rewrite Hrun. clearbody answer. clear Hrun.
  destruct answer as [r e]. cbn [fst snd]. conj.
  - split.
    + destruct e as [e|]; [cbn; discriminate|].
      destruct r; cbn -[redis_String]; try discriminate.
      destruct l as [|x l]; [discriminate|].
      destruct (redis_String x None) as [role' [e'|]] eqn:Es; [discriminate|].
      destruct (String.eqb_spec role' role) as [->|]; [|discriminate].
      intros _. exists x, l. split; [reflexivity | exact Es].
    + intros (x & l & [= -> ->] & Hs). cbn -[redis_String]. rewrite Hs.
      rewrite String.eqb_refl. reflexivity.
  - intros e' ->. reflexivity.
  - intros e' -> Hv. destruct (redis_Values r None) as [res o].
    cbn in Hv. subst o. reflexivity.
  - intros x l e' [= -> ->] Hs. cbn -[redis_String].
    destruct (redis_String x None) as [role' o]. cbn in Hs. subst o.
    reflexivity.
  - intros x l role' [= -> ->] Hs Hneq. cbn -[redis_String]. rewrite Hs.
    destruct (String.eqb_spec role' role); [contradiction | reflexivity].
Qed.

(** Claim C10.  When the answer to [ROLE] is the empty array, the decoder
    reports no error and the index expression [res[0]] panics. *)
Theorem TestRole_empty_array_panics c role s :
  on_do net (log (nw s)) c "ROLE" [] = (RArray [], None) ->
  redis_Values (RArray []) None = ([], None) /\
  fst (TestRole net (Some c) role s) = Panic "index out of range".
Proof.
  intros H. split; [reflexivity|].
  unfold TestRole, bind, deref, ret, conn_Do. cbn. rewrite H. reflexivity.
Qed.
End Role.

(** ** The client invariant *)

Section Invariant.
Variable net : Net.

(** [Close] closes the connection held, if any, and a second [Close] does
    nothing. *)
Lemma Close_spec rest s :
  Inv rest s ->
  exists s', Close s = (Return tt, s') /\ Inv rest s' /\
             conn (sc s') = None /\ Close s' = (Return tt, s').
Proof.
  intros I. destruct s as [[c o a i] [lv fr lg]].
  destruct I as [Il If Ind Ip Ii Ilen]. cbn in Il, If, Ind, Ip, Ii.
  cbn [sc addrs] in Ilen.
  unfold Close, bind, getClient. cbn [sc conn].
  destruct c as [k|]; unfold owned in Il; cbn in Il; subst lv.
  - inversion Ind as [|? ? Hk Hnd]; subst.
    inversion If as [|? ? Hlt Hf]; subst.
    cbn -[filter]. rewrite (filter_close k rest Hk).
    eexists. split; [reflexivity|]. conj; try reflexivity.
    constructor; cbn; auto. intros ? [=].
  - cbn. eexists. split; [reflexivity|]. conj; try reflexivity.
    constructor; cbn; auto.
Qed.

(** Claim C9.  From a state that satisfies the invariant (the client's
    open connections are at most the one in [sc.conn], and that one was
    dialed to [addrs[activeAddr]]), [MasterAddress] of either copy, [Close]
    and every single attempt return without panic in a state that
    satisfies it again; and [Close] is idempotent: after it the client
    holds no connection and a second [Close] changes nothing. *)
Theorem client_invariant_preserved rest name s :
  Inv rest s ->
  (exists r s', V1.MasterAddress net name s = (Return r, s') /\ Inv rest s') /\
  (exists r s', V2.MasterAddress net name s = (Return r, s') /\ Inv rest s') /\
  (exists s', Close s = (Return tt, s') /\ Inv rest s' /\
              conn (sc s') = None /\ Close s' = (Return tt, s')) /\
  (addrs (sc s) <> [] -> forall cmd args,
     exists r s', doOnce net cmd args s = (Return r, s') /\ Inv rest s').
Proof.
  intros I. conj.
  - destruct (V1_MasterAddress_spec net rest name s I)
      as (addr & e & s' & evs & Hrun & I' & _).
    exists (addr, e), s'. split; assumption.
  - destruct (V2_MasterAddress_spec net rest name s I)
      as (addr & e & s' & evs & Hrun & I' & _).
    exists (addr, e), s'. split; assumption.
  - apply Close_spec. exact I.
  - intros Hne cmd args.
    destruct (doOnce_spec net rest cmd args s I Hne)
      as (r & e & s1 & evs & Hd & _ & _ & _ & _ & _ & I1 & _).
    exists (r, e), s1. split; assumption.
Qed.
End Invariant.

(** ** The pool adapter *)

Section PoolAdapter.
Variable net : Net.

(** Claim C7.  The [Dial] closure of either copy returns a connection only
    as the result of three steps that succeed one after the other, each
    from the state the one before left: [MasterAddress], [redis.Dial] to
    the address it returned, [TestRole] for [master] on the connection
    dialed; the error returned with it is [nil].  When the first two
    succeed and the role check returns an error, the closure returns [nil]
    and the wrapped error. *)
Theorem dial_callback_contract :
  (forall conf s c err s',
      V2.dial net conf s = (Return (Some c, err), s') ->
      err = None /\
      exists addr s1 s2,
        V2.MasterAddress net (V2.Master conf) s = (Return (addr, None), s1) /\
        redis_Dial net addr (redis_options conf) s1
          = (Return (Some c, None), s2) /\
        TestRole net (Some c) "master" s2 = (Return None, s')) /\
  (forall conf s addr s1 c s2 e s',
      V2.MasterAddress net (V2.Master conf) s = (Return (addr, None), s1) ->
      redis_Dial net addr (redis_options conf) s1
        = (Return (Some c, None), s2) ->
      TestRole net (Some c) "master" s2 = (Return (Some e), s') ->
      V2.dial net conf s
        = (Return (None, Some ("dial: failed role check: " ++ e)%string), s')) /\
  (forall conf s c err s',
      V1.dial net conf s = (Return (Some c, err), s') ->
      err = None /\
      exists addr s1 t0 t1 t2 s2,
        V1.MasterAddress net (V1.Name conf) s = (Return (addr, None), s1) /\
        slice_at (V1.RedisTimeouts conf) 0 = Return t0 /\
        slice_at (V1.RedisTimeouts conf) 1 = Return t1 /\
        slice_at (V1.RedisTimeouts conf) 2 = Return t2 /\
        redis_Dial net addr (redis_options_V1 t0 t1 t2) s1
          = (Return (Some c, None), s2) /\
        TestRole net (Some c) "master" s2 = (Return None, s')) /\
  (forall conf s addr s1 t0 t1 t2 c s2 e s',
      V1.MasterAddress net (V1.Name conf) s = (Return (addr, None), s1) ->
      slice_at (V1.RedisTimeouts conf) 0 = Return t0 ->
      slice_at (V1.RedisTimeouts conf) 1 = Return t1 ->
      slice_at (V1.RedisTimeouts conf) 2 = Return t2 ->
      redis_Dial net addr (redis_options_V1 t0 t1 t2) s1
        = (Return (Some c, None), s2) ->
      TestRole net (Some c) "master" s2 = (Return (Some e), s') ->
      V1.dial net conf s
        = (Return (None, Some ("dial: failed role check: " ++ e)%string), s')).
Proof.
  conj.
  - intros conf s c err s' H. unfold V2.dial, bind in H.
    fold (redis_options conf) in H.
    destruct (V2.MasterAddress net (V2.Master conf) s)
      as [[[addr [e|]]|msg] s1] eqn:Em; try discriminate.
    destruct (redis_Dial net addr (redis_options conf) s1)
      as [[[c' [e1|]]|msg] s2] eqn:Ed; try discriminate.
    destruct (TestRole net c' "master" s2)
      as [[[e2|]|msg] s3] eqn:Et; try discriminate.
    injection H as -> <- <-. split; [reflexivity|].
    exists addr, s1, s2. conj; auto.
  - intros conf s addr s1 c s2 e s' Em Ed Et. unfold V2.dial, bind.
    fold (redis_options conf). rewrite Em, Ed, Et. reflexivity.
  - intros conf s c err s' H. unfold V1.dial, bind, index in H.
    destruct (V1.MasterAddress net (V1.Name conf) s)
      as [[[addr [e|]]|msg] s1] eqn:Em; try discriminate.
    destruct (slice_at (V1.RedisTimeouts conf) 0) as [t0|] eqn:E0;
      try discriminate.
    destruct (slice_at (V1.RedisTimeouts conf) 1) as [t1|] eqn:E1;
      try discriminate.
    destruct (slice_at (V1.RedisTimeouts conf) 2) as [t2|] eqn:E2;
      try discriminate.
    fold (redis_options_V1 t0 t1 t2) in H.
    destruct (redis_Dial net addr (redis_options_V1 t0 t1 t2) s1)
      as [[[c' [e1|]]|msg] s2] eqn:Ed; try discriminate.
    destruct (TestRole net c' "master" s2)
      as [[[e2|]|msg] s3] eqn:Et; try discriminate.
    injection H as -> <- <-. split; [reflexivity|].
    exists addr, s1, t0, t1, t2, s2. conj; auto.
  - intros conf s addr s1 t0 t1 t2 c s2 e s' Em E0 E1 E2 Ed Et.
    unfold V1.dial, bind, index. rewrite Em, E0, E1, E2.
    fold (redis_options_V1 t0 t1 t2). rewrite Ed, Et. reflexivity.
Qed.

(** The second copy of [NewPool] (lines 212-256) returns the error of
    [validateConfig] and neither pool nor client when the master name is
    empty, the list of sentinels is empty, one of the three sentinel
    timeouts is zero or the connect timeout of the data node is zero, and
    otherwise a pool whose [Dial] is the closure, with a fresh client. *)
Theorem V2_NewPool_validates conf :
  let invalid :=
    V2.Master conf = "" \/ V2.Sentinels conf = [] \/
    V2.Connect (V2.SentinelTimeouts conf) = 0%Z \/
    V2.Read (V2.SentinelTimeouts conf) = 0%Z \/
    V2.Write (V2.SentinelTimeouts conf) = 0%Z \/
    V2.Connect (V2.RedisTimeouts conf) = 0%Z in
  (invalid -> exists e, V2.validateConfig conf = Some e /\
                        V2.NewPool net conf = (None, Some e)) /\
  (~ invalid -> V2.validateConfig conf = None /\
     exists p, V2.NewPool net conf
               = (Some (p, NewClient (V2.Sentinels conf)
                             [DialConnectTimeout (V2.Connect (V2.SentinelTimeouts conf));
                              DialReadTimeout (V2.Read (V2.SentinelTimeouts conf));
                              DialWriteTimeout (V2.Write (V2.SentinelTimeouts conf))]),
                  None) /\
               Dial p = V2.dial net conf).
Proof.
  intros invalid. subst invalid.
  destruct conf as [m l [sc_ sr sw] [rc rr rw]]. cbn [V2.Master V2.Sentinels
    V2.SentinelTimeouts V2.RedisTimeouts V2.Connect V2.Read V2.Write].
  unfold V2.NewPool, V2.validateConfig, V2.Nanoseconds.
  cbn [V2.Master V2.Sentinels
    V2.SentinelTimeouts V2.RedisTimeouts V2.Connect V2.Read V2.Write].
  destruct (String.eqb_spec m "") as [Em|Em].
  { split; [intros _; eexists; split; reflexivity | intros H; exfalso; apply H; auto]. }
  destruct l as [|a l].
  { split; [intros _; eexists; split; reflexivity | intros H; exfalso; apply H; auto]. }
  cbn [List.length Nat.eqb].
  destruct (Z.eqb_spec sc_ 0) as [E1|E1].
  { split; [intros _; eexists; split; reflexivity | intros H; exfalso; apply H; auto]. }
  destruct (Z.eqb_spec sr 0) as [E2|E2].
  { split; [intros _; eexists; split; reflexivity | intros H; exfalso; apply H; auto 6]. }
  destruct (Z.eqb_spec sw 0) as [E3|E3].
  { split; [intros _; eexists; split; reflexivity | intros H; exfalso; apply H; auto 6]. }
  destruct (Z.eqb_spec rc 0) as [E4|E4].
  { split; [intros _; eexists; split; reflexivity | intros H; exfalso; apply H; auto 7]. }
  cbn [orb]. split.
  - intros [H|[H|[H|[H|[H|H]]]]]; try contradiction. discriminate.
  - intros _. split; [reflexivity|]. eexists. split; reflexivity.
Qed.
End PoolAdapter.

(** ** The first copy against the second *)

(** Claim C1, on the first copy of [do] (lines 94-108), whose loop has no
    [break].  With two monitors that both answer, the first attempt succeeds
    and the first copy sends two commands where the second copy sends one.
    With a monitor that answers once and then is gone, the first attempt
    succeeds as well, and the first copy returns the error of the second
    attempt, drops the connection and moves [activeAddr] on, where the
    second copy returns the address. *)
Theorem V1_do_goes_on_after_success :
  doOnce (all_up RNil) "SENTINEL" (master_args "mycluster") s0
    = (Return (addr_reply, None),
       snd (doOnce (all_up RNil) "SENTINEL" (master_args "mycluster") s0)) /\
  queries (events_of (V1.do (all_up RNil) "SENTINEL" (master_args "mycluster")) s0)
    = 2 /\
  queries (events_of (V2.do (all_up RNil) "SENTINEL" (master_args "mycluster")) s0)
    = 1 /\
  let gone := scripted_net [(addr_reply, None); (RNil, Some "EOF")] in
  fst (doOnce gone "SENTINEL" (master_args "mycluster") s0)
    = Return (addr_reply, None) /\
  fst (V1.MasterAddress gone "mycluster" s0) = Return ("", Some "EOF") /\
  sc (snd (V1.MasterAddress gone "mycluster" s0))
    = mkClient None short monitors 1 /\
  fst (V2.MasterAddress gone "mycluster" s0) = Return ("10.0.0.9:6379", None).
Proof. vm_compute. repeat split; reflexivity. Qed.

(** The first copy when the monitor that answered is gone at the next
    attempt.  With three monitors, the attempt against the first fails and
    the attempt against the second succeeds with host and port; the loop of
    the first copy makes its third attempt on the same connection, which
    fails: [MasterAddress] returns that error and no address, and
    [activeAddr] is left at the third monitor.  The second copy returns the
    address and stays at the second monitor. *)
Theorem V1_failover_overrun :
  let cmd := "SENTINEL" in
  let args := master_args "mycluster" in
  let s1 := snd (doOnce answers_once cmd args s3) in
  let s2 := snd (doOnce answers_once cmd args (rotated s1)) in
  activeAddr (sc s3) = 0%Z /\
  doOnce answers_once cmd args s3 = (Return (RNil, Some "i/o timeout"), s1) /\
  activeAddr (sc (rotated s1)) = 1%Z /\
  doOnce answers_once cmd args (rotated s1) = (Return (addr_reply, None), s2) /\
  fst (V1.MasterAddress answers_once "mycluster" s3) = Return ("", Some "EOF") /\
  sc (snd (V1.MasterAddress answers_once "mycluster" s3))
    = mkClient None short three_monitors 2 /\
  fst (V2.MasterAddress answers_once "mycluster" s3)
    = Return ("10.0.0.9:6379", None) /\
  activeAddr (sc (snd (V2.MasterAddress answers_once "mycluster" s3))) = 1%Z.
Proof. vm_compute. repeat split; reflexivity. Qed.

(** The first copy of [NewPool] (lines 34-74) does not validate: with an
    empty master name, and with nothing set at all, it builds the client and
    returns a pool, on any network. *)
Theorem V1_NewPool_does_not_validate (net : Net) :
  (exists p, V1.NewPool net unnamed = Return (p, NewClient monitors short)) /\
  (exists p, V1.NewPool net nothing_set
             = Return (p, NewClient [] [DialConnectTimeout 0%Z;
                                        DialReadTimeout 0%Z;
                                        DialWriteTimeout 0%Z])).
Proof. split; eexists; reflexivity. Qed.

(** ** Runs *)

(** Two monitors that refuse the connection: two attempts, and the error is
    that of the second monitor. *)
Lemma all_fail_exactly_n_attempts_witness :
  List.length (attempts (events_of (V2.MasterAddress all_down "mycluster") s0))
    = List.length (addrs (sc s0)) /\
  (addrs (sc s0) <> [] ->
   exists e, fst (V2.MasterAddress all_down "mycluster" s0) = Return ("", Some e) /\
     last (attempts (events_of (V2.MasterAddress all_down "mycluster") s0)) None
     = Some e).
Proof.
  apply (all_fail_exactly_n_attempts all_down (V2.MasterAddress all_down) []).
  - right. reflexivity.
  - apply Inv_boot. vm_compute. discriminate.
  - vm_compute. repeat (constructor; [intros H; discriminate H|]). constructor.
Defined.

(** The example of the specification: of two monitors the first times out
    and the second answers. *)
Example two_monitors_first_times_out :
  fst (V2.MasterAddress first_times_out "mycluster" s0)
    = Return ("10.0.0.9:6379", None) /\
  activeAddr (sc (snd (V2.MasterAddress first_times_out "mycluster" s0))) = 1%Z /\
  fst (V1.MasterAddress first_times_out "mycluster" s0)
    = Return ("10.0.0.9:6379", None) /\
  activeAddr (sc (snd (V1.MasterAddress first_times_out "mycluster" s0))) = 1%Z.
Proof. vm_compute. repeat split; reflexivity. Qed.

(** Three monitors, of which the first times out and the second answers,
    whenever asked. *)
Lemma failover_to_next_monitor_witness :
  fst (V2.MasterAddress first_times_out "mycluster" s3)
    = Return ("10.0.0.9:6379", None) /\
  activeAddr (sc (snd (V2.MasterAddress first_times_out "mycluster" s3))) = 1%Z /\
  fst (V1.MasterAddress first_times_out "mycluster" s3)
    = Return ("10.0.0.9:6379", None) /\
  activeAddr (sc (snd (V1.MasterAddress first_times_out "mycluster" s3))) = 1%Z.
Proof.
  pose (args := master_args "mycluster").
  pose (s1 := snd (doOnce first_times_out "SENTINEL" args s3)).
  pose (s2 := snd (doOnce first_times_out "SENTINEL" args (rotated s1))).
  pose (s' := snd (doOnce first_times_out "SENTINEL" args s2)).
  destruct (failover_to_next_monitor first_times_out [] "mycluster" 0 s3 s3
              RNil "i/o timeout" s1 addr_reply "10.0.0.9" "6379" s2)
    as ((H2 & _ & _) & H1).
  - apply Inv_boot. vm_compute. discriminate.
  - constructor.
  - vm_compute. lia.
  - reflexivity.
  - reflexivity.
  - reflexivity.
  - destruct (H1 s') as [H1' _].
    { apply (@ans_more first_times_out "SENTINEL" args "10.0.0.9" "6379"
               0 s2 addr_reply s' s'); [reflexivity | reflexivity |].
      constructor. }
    rewrite H2, H1'. conj; reflexivity.
Defined.

(** The first monitor times out: the connection is closed and dropped and
    the index moves to the second monitor. *)
Lemma failed_attempt_rotates_witness :
  let s1 := snd (doOnce first_times_out "SENTINEL" (master_args "mycluster") s0) in
  conn (sc s1) = None /\ live (nw s1) = [] /\
  sc (rotated s1) = mkClient None short monitors 1.
Proof.
  intros s1.
  destruct (failed_attempt_rotates first_times_out []
              "SENTINEL" (master_args "mycluster") s0 RNil "i/o timeout" s1)
    as (H1 & H2 & _ & H3 & _).
  - apply Inv_boot. vm_compute. discriminate.
  - discriminate.
  - reflexivity.
  - conj; [exact H1 | exact H2 | exact H3].
Defined.

(** A monitor that answers host and port. *)
Lemma master_address_joins_witness :
  fst (V1.MasterAddress (all_up RNil) "mycluster" s0)
    = Return ("10.0.0.9:6379", None) /\
  fst (V2.MasterAddress (all_up RNil) "mycluster" s0)
    = Return ("10.0.0.9:6379", None).
Proof.
  split.
  - destruct (master_address_joins (all_up RNil) "mycluster" s0 addr_reply
                "10.0.0.9" "6379"
                (snd (V1.do (all_up RNil) "SENTINEL" (master_args "mycluster") s0))
                eq_refl) as [H _].
    rewrite (H eq_refl). reflexivity.
  - destruct (master_address_joins (all_up RNil) "mycluster" s0 addr_reply
                "10.0.0.9" "6379"
                (snd (V2.do (all_up RNil) "SENTINEL" (master_args "mycluster") s0))
                eq_refl) as [_ H].
    rewrite (H eq_refl). reflexivity.
Defined.

(** The length of the reply is not checked: three elements are joined as
    two are. *)
Example MasterAddress_joins_three :
  fst (V2.MasterAddress
         (scripted_net [(RArray [RBulk "a"; RBulk "b"; RBulk "c"], None)])
         "mycluster" s0)
  = Return ("a:b:c", None).
Proof. reflexivity. Qed.

(** A reply of the wrong shape is no failure of the attempt: the loop ends
    with it, the decoder of [MasterAddress] reports the error, and the
    client keeps its connection and its index. *)
Example MasterAddress_wrong_shape :
  let run := V2.MasterAddress (scripted_net [(RInt 1, None)]) "mycluster" s0 in
  fst run
    = Return ("", Some "redigo: unexpected type for Strings, got type int64") /\
  sc (snd run)
    = mkClient (Some (mkConn 0 "10.0.0.1:26379")) short monitors 0 /\
  queries (log (nw (snd run))) = 1.
Proof. vm_compute. repeat split; reflexivity. Qed.

(** The role check on a master, on a peer that spells its role otherwise,
    on replies of the wrong type and on a peer that is gone. *)
Lemma TestRole_iff_witness :
  fst (TestRole (all_up (RArray [RBulk "master"])) (Some data_conn) "master" s0)
    = Return None /\
  fst (TestRole (all_up (RArray [RBulk "Master"])) (Some data_conn) "master" s0)
    = Return (Some "role check failed") /\
  fst (TestRole (all_up (RArray [RInt 1])) (Some data_conn) "master" s0)
    = Return (Some "redigo: unexpected type for String, got type int64") /\
  fst (TestRole (all_up (RStatus "master")) (Some data_conn) "master" s0)
    = Return (Some "redigo: unexpected type for Values, got type string") /\
  fst (TestRole all_down (Some data_conn) "master" s0) = Return (Some "EOF").
Proof.
  conj.
  - apply (proj1 (TestRole_iff (all_up (RArray [RBulk "master"])) data_conn
                    "master" s0)).
    exists (RBulk "master"), []. split; reflexivity.
  - apply (proj2 (proj2 (proj2 (proj2 (TestRole_iff (all_up (RArray [RBulk "Master"]))
             data_conn "master" s0)))) (RBulk "Master") [] "Master");
      [reflexivity | reflexivity | discriminate].
  - apply (proj1 (proj2 (proj2 (proj2 (TestRole_iff (all_up (RArray [RInt 1]))
             data_conn "master" s0)))) (RInt 1) []); reflexivity.
  - apply (proj1 (proj2 (proj2 (TestRole_iff (all_up (RStatus "master"))
             data_conn "master" s0)))); reflexivity.
  - apply (proj1 (proj2 (TestRole_iff all_down data_conn "master" s0))).
    reflexivity.
Defined.

(** A peer that answers [ROLE] with the empty array. *)
Lemma TestRole_empty_array_panics_witness :
  fst (TestRole (all_up (RArray [])) (Some data_conn) "master" s0)
    = Panic "index out of range".
Proof.
  apply (TestRole_empty_array_panics (all_up (RArray [])) data_conn "master" s0).
  reflexivity.
Defined.

(** The invariant, from the state right after construction. *)
Lemma client_invariant_preserved_witness :
  (exists r s', V1.MasterAddress first_times_out "mycluster" s0 = (Return r, s')
                /\ Inv [] s') /\
  (exists r s', V2.MasterAddress first_times_out "mycluster" s0 = (Return r, s')
                /\ Inv [] s') /\
  (exists s', Close s0 = (Return tt, s') /\ Inv [] s' /\
              conn (sc s') = None /\ Close s' = (Return tt, s')) /\
  (addrs (sc s0) <> [] -> forall cmd args,
     exists r s', doOnce first_times_out cmd args s0 = (Return r, s') /\ Inv [] s').
Proof.
  apply (client_invariant_preserved first_times_out [] "mycluster" s0).
  apply Inv_boot. vm_compute. discriminate.
Defined.

(** The [Dial] closure against a master, and against a replica. *)
Lemma dial_callback_contract_witness :
  (exists c s', V2.dial first_times_out conf_ok s0 = (Return (Some c, None), s')
                /\ peer c = "10.0.0.9:6379") /\
  fst (V2.dial (all_up (RArray [RBulk "slave"])) conf_ok s0)
    = Return (None, Some "dial: failed role check: role check failed").
Proof.
  split.
  - pose (run := V2.dial first_times_out conf_ok s0).
    destruct (proj1 (dial_callback_contract first_times_out) conf_ok s0
                (mkConn 2 "10.0.0.9:6379") None (snd run) eq_refl)
      as (_ & addr & s1 & s2 & _).
    exists (mkConn 2 "10.0.0.9:6379"), (snd run). split; reflexivity.
  - set (net := all_up (RArray [RBulk "slave"])).
    pose (s1 := snd (V2.MasterAddress net "mycluster" s0)).
    pose (s2 := snd (redis_Dial net "10.0.0.9:6379" (redis_options conf_ok) s1)).
    pose (s3 := snd (TestRole net (Some (mkConn 1 "10.0.0.9:6379")) "master" s2)).
    rewrite (proj1 (proj2 (dial_callback_contract net)) conf_ok s0
               "10.0.0.9:6379" s1 (mkConn 1 "10.0.0.9:6379") s2
               "role check failed" s3 eq_refl eq_refl eq_refl).
    reflexivity.
Defined.

(** * Further properties of the code *)

(** ** Dials of an attempt *)

Lemma dial_requests_app (a b : list event) :
  dial_requests (a ++ b) = dial_requests a ++ dial_requests b.
Proof.
  induction a as [|x a IH]; [reflexivity|].
  destruct x; cbn; rewrite IH; reflexivity.
Qed.

Section Lazy.
Variable net : Net.

Lemma doOnce_dials rest cmd args s :
  Inv rest s -> addrs (sc s) <> [] ->
  dial_requests (events_of (doOnce net cmd args) s)
  = match conn (sc s) with
    | Some _ => []
    | None => [(monitor_at s 0, options (sc s))]
    end.
Proof.
  intros I Hne. destruct s as [[c o a i] [lv fr lg]].
  destruct I as [Il If Ind Ip Ii Ilen]. cbn in Il, If, Ind, Ip, Ii, Hne.
  cbn [sc addrs] in Ilen.
  destruct Ii as [Ii|Ii]; [contradiction|].
  unfold monitor_at. cbn [sc nw conn options addrs activeAddr].
  rewrite Z.add_0_r, Z.mod_small by lia.
  destruct c as [k|].
  - destruct (on_do net lg k cmd args) as [r [e|]] eqn:Edo.
    + erewrite events_of_log; [| unfold doOnce, bind, getClient, conn_Do;
        cbn -[filter]; rewrite Edo; cbn -[filter]; rewrite <- app_assoc;
        reflexivity]. reflexivity.
    + erewrite events_of_log; [| unfold doOnce, bind, getClient, conn_Do;
        cbn -[filter]; rewrite Edo; cbn -[filter]; reflexivity]. reflexivity.
  - destruct (slice_at_ok a i Ii) as [addr [Ea Enth]].
    rewrite (nth_error_nth a (Z.to_nat i) "" Enth).
    destruct (on_dial net lg addr o) as [e|] eqn:Ed.
    + erewrite events_of_log; [| unfold doOnce, bind, getClient, index, redis_Dial;
        cbn -[filter]; rewrite Ea; cbn -[filter]; rewrite Ed; cbn -[filter];
        reflexivity]. reflexivity.
    + destruct (on_do net (lg ++ [EvDial addr o None]) (mkConn fr addr) cmd args)
        as [r [e|]] eqn:Edo.
      * erewrite events_of_log; [| unfold doOnce, bind, getClient, index,
          redis_Dial, conn_Do;
          cbn -[filter]; rewrite Ea; cbn -[filter]; rewrite Ed; cbn -[filter];
          rewrite Edo; cbn -[filter]; repeat rewrite <- app_assoc; reflexivity].
        reflexivity.
      * erewrite events_of_log; [| unfold doOnce, bind, getClient, index,
          redis_Dial, conn_Do;
          cbn -[filter]; rewrite Ea; cbn -[filter]; rewrite Ed; cbn -[filter];
          rewrite Edo; cbn -[filter]; repeat rewrite <- app_assoc; reflexivity].
        reflexivity.
Qed.
End Lazy.

Lemma monitor_at_rotated (s1 s : Sys) (j : nat) :
  addrs (sc s1) = addrs (sc s) ->
  activeAddr (sc s1) = activeAddr (sc s) ->
  addrs (sc s) <> [] ->
  monitor_at (rotated s1) j = monitor_at s (S j).
Proof.
  intros Ha Hi Hne. unfold monitor_at, rotated. cbn [sc addrs activeAddr].
  rewrite Ha, Hi.
  assert (Hn : (0 < Z.of_nat (List.length (addrs (sc s))))%Z).
  { destruct (addrs (sc s)); [contradiction | cbn [List.length]; lia]. }
  rewrite Zplus_mod_idemp_l.
  replace (activeAddr (sc s) + 1 + Z.of_nat j)%Z
    with (activeAddr (sc s) + Z.of_nat (S j))%Z by lia.
  reflexivity.
Qed.

Section Traces.
Variable net : Net.

(** What [k] failed attempts in a row leave behind. *)
Lemma failed_attempts_trace rest cmd args k s s' :
  failed_attempts net cmd args k s s' ->
  Inv rest s -> addrs (sc s) <> [] ->
  Inv rest s' /\ addrs (sc s') = addrs (sc s) /\
  options (sc s') = options (sc s) /\
  activeAddr (sc s')
    = ((activeAddr (sc s) + Z.of_nat k)
       mod Z.of_nat (List.length (addrs (sc s))))%Z /\
  (0 < k -> conn (sc s') = None) /\
  exists evs, log (nw s') = log (nw s) ++ evs /\
    List.length (attempts evs) = k /\
    (conn (sc s) = None ->
     dial_requests evs
     = map (fun j => (monitor_at s j, options (sc s))) (seq 0 k)).
Proof.
  induction 1 as [s | k s r e s1 s' Hd Hfa IH]; intros I Hne.
  - conj; auto.
    + destruct (inv_index I) as [E|E]; [contradiction|].
      rewrite Z.add_0_r, Z.mod_small by lia. reflexivity.
    + intros H. lia.
    + exists []. rewrite app_nil_r. conj; reflexivity.
  - destruct (doOnce_spec net rest cmd args s I Hne)
      as (r' & e' & s1' & evs1 & Hd' & Ha1 & Ho1 & Hi1 & Hl1 & Hat1 & I1 & Hc1).
    rewrite Hd in Hd'. injection Hd' as <- <- <-.
    destruct (failed_step net rest cmd args s r e s1 I Hne Hd)
      as (_ & I2 & Ha2 & Ho2 & Hc2 & _ & Hact & _).
    assert (Hne2 : addrs (sc (rotated s1)) <> []) by (rewrite Ha2; exact Hne).
    destruct (IH I2 Hne2) as (I' & Ha' & Ho' & Hact' & _ & evs2 & Hl2 & Hlen2 & Hdial2).
    assert (Hn : (0 < Z.of_nat (List.length (addrs (sc s))))%Z).
    { destruct (addrs (sc s)); [contradiction | cbn [List.length]; lia]. }
    conj; try congruence.
    + rewrite Hact', Hact, Ha2, Zplus_mod_idemp_l. f_equal. lia.
    + intros _. destruct k as [|k].
      * inversion Hfa; subst. exact Hc2.
      * destruct (IH I2 Hne2) as (_ & _ & _ & _ & Hc & _). apply Hc. lia.
    + exists (evs1 ++ evs2). conj.
      * rewrite Hl2. cbn [rotated nw]. rewrite Hl1. symmetry. apply app_assoc.
      * rewrite attempts_app, length_app, Hat1, Hlen2. reflexivity.
      * intros Hnone. rewrite dial_requests_app.
        rewrite <- (events_of_log (doOnce net cmd args) s evs1)
          by (rewrite Hd; exact Hl1).
        rewrite (doOnce_dials net rest cmd args s I Hne), Hnone.
        rewrite (Hdial2 Hc2). cbn [seq map app].
        rewrite <- seq_shift, map_map. f_equal.
        apply map_ext. intros j.
        rewrite (monitor_at_rotated s1 s j Ha1 Hi1 Hne), Ho2. reflexivity.
Qed.

Lemma V2_do_loop_log rest cmd args m s r0 e0 :
  Inv rest s -> (m = 0 \/ addrs (sc s) <> []) ->
  exists evs, log (nw (snd (V2.do_loop net m cmd args r0 e0 s)))
              = log (nw s) ++ evs.
Proof.
  intros I Hm.
  destruct (V2_do_loop_spec net rest cmd args m s r0 e0 I Hm)
    as (r & e & s' & evs & Hrun & _ & _ & _ & Hl & _).
  exists evs. rewrite Hrun. exact Hl.
Qed.

Lemma V1_do_loop_log rest cmd args m s r0 e0 :
  Inv rest s -> (m = 0 \/ addrs (sc s) <> []) ->
  exists evs, log (nw (snd (V1.do_loop net m cmd args r0 e0 s)))
              = log (nw s) ++ evs.
Proof.
  intros I Hm.
  destruct (V1_do_loop_spec net rest cmd args m s r0 e0 I Hm)
    as (r & e & s' & evs & Hrun & _ & _ & _ & Hl & _).
  exists evs. rewrite Hrun. exact Hl.
Qed.

(** A run of the loop on which every attempt fails is a row of failed
    attempts (second copy). *)
Lemma V2_all_failed rest cmd args m :
  forall s r0 e0,
  Inv rest s -> (m = 0 \/ addrs (sc s) <> []) ->
  Forall failed (attempts (events_of (V2.do_loop net m cmd args r0 e0) s)) ->
  failed_attempts net cmd args m s (snd (V2.do_loop net m cmd args r0 e0 s)).
Proof.
  induction m as [|m IH]; intros s r0 e0 I Hm Hall.
  - constructor.
  - destruct Hm as [Hm|Hne]; [discriminate|].
    destruct (doOnce_spec net rest cmd args s I Hne)
      as (r & e & s1 & evs1 & Hd & Ha1 & Ho1 & Hi1 & Hl1 & Hat1 & I1 & Hc1).
    destruct e as [e|].
    + destruct (failed_step net rest cmd args s r e s1 I Hne Hd)
        as (_ & I2 & Ha2 & _).
      assert (Hm2 : m = 0 \/ addrs (sc (rotated s1)) <> [])
        by (right; rewrite Ha2; exact Hne).
      destruct (V2_do_loop_log rest cmd args m (rotated s1) r (Some e) I2 Hm2)
        as (evs2 & Hl2).
      assert (Hev : events_of (V2.do_loop net (S m) cmd args r0 e0) s
                    = evs1 ++ evs2).
      { apply events_of_log.
        rewrite (V2_fail_unfold net rest m cmd args r0 e0 s r e s1 I Hne Hd).
        rewrite Hl2. cbn [rotated nw]. rewrite Hl1. symmetry. apply app_assoc. }
      rewrite Hev, attempts_app, Hat1 in Hall. cbn [app] in Hall.
      inversion Hall as [|? ? _ Hall2]; subst.
      rewrite (V2_fail_unfold net rest m cmd args r0 e0 s r e s1 I Hne Hd).
      eapply fa_more; [exact Hd|]. apply (IH _ _ _ I2 Hm2).
      rewrite (events_of_log _ _ evs2 Hl2). exact Hall2.
    + exfalso.
      assert (Hev : events_of (V2.do_loop net (S m) cmd args r0 e0) s = evs1).
      { apply events_of_log.
        rewrite (V2_ok_unfold net m cmd args r0 e0 s r s1 Hd). exact Hl1. }
      rewrite Hev, Hat1 in Hall. inversion Hall as [|? ? Hf _]; subst.
      apply Hf. reflexivity.
Qed.

(** The same for the first copy. *)
Lemma V1_all_failed rest cmd args m :
  forall s r0 e0,
  Inv rest s -> (m = 0 \/ addrs (sc s) <> []) ->
  Forall failed (attempts (events_of (V1.do_loop net m cmd args r0 e0) s)) ->
  failed_attempts net cmd args m s (snd (V1.do_loop net m cmd args r0 e0 s)).
Proof.
  induction m as [|m IH]; intros s r0 e0 I Hm Hall.
  - constructor.
  - destruct Hm as [Hm|Hne]; [discriminate|].
    destruct (doOnce_spec net rest cmd args s I Hne)
      as (r & e & s1 & evs1 & Hd & Ha1 & Ho1 & Hi1 & Hl1 & Hat1 & I1 & Hc1).
    destruct e as [e|].
    + destruct (failed_step net rest cmd args s r e s1 I Hne Hd)
        as (_ & I2 & Ha2 & _).
      assert (Hm2 : m = 0 \/ addrs (sc (rotated s1)) <> [])
        by (right; rewrite Ha2; exact Hne).
      destruct (V1_do_loop_log rest cmd args m (rotated s1) r (Some e) I2 Hm2)
        as (evs2 & Hl2).
      assert (Hev : events_of (V1.do_loop net (S m) cmd args r0 e0) s
                    = evs1 ++ evs2).
      { apply events_of_log.
        rewrite (V1_fail_unfold net rest m cmd args r0 e0 s r e s1 I Hne Hd).
        rewrite Hl2. cbn [rotated nw]. rewrite Hl1. symmetry. apply app_assoc. }
      rewrite Hev, attempts_app, Hat1 in Hall. cbn [app] in Hall.
      inversion Hall as [|? ? _ Hall2]; subst.
      rewrite (V1_fail_unfold net rest m cmd args r0 e0 s r e s1 I Hne Hd).
      eapply fa_more; [exact Hd|]. apply (IH _ _ _ I2 Hm2).
      rewrite (events_of_log _ _ evs2 Hl2). exact Hall2.
    + exfalso.
      assert (Hm1 : m = 0 \/ addrs (sc s1) <> [])
        by (right; rewrite Ha1; exact Hne).
      destruct (V1_do_loop_log rest cmd args m s1 r None I1 Hm1) as (evs2 & Hl2).
      assert (Hev : events_of (V1.do_loop net (S m) cmd args r0 e0) s
                    = evs1 ++ evs2).
      { apply events_of_log.
        rewrite (V1_ok_unfold net m cmd args r0 e0 s r s1 Hd).
        rewrite Hl2, Hl1. symmetry. apply app_assoc. }
      rewrite Hev, attempts_app, Hat1 in Hall. cbn [app] in Hall.
      inversion Hall as [|? ? Hf _]; subst.
      apply Hf. reflexivity.
Qed.
End Traces.

Section Calls.
Variable net : Net.

Lemma V2_MasterAddress_state name s :
  snd (V2.MasterAddress net name s)
  = snd (V2.do_loop net (List.length (addrs (sc s))) "SENTINEL"
           (master_args name) RNil None s).
Proof.
  unfold V2.MasterAddress, V2.do, bind, getClient. fold (master_args name).
  destruct (V2.do_loop net (List.length (addrs (sc s))) "SENTINEL"
              (master_args name) RNil None s) as [[[r e]|msg] s'];
    [destruct (redis_Strings r e) |]; reflexivity.
Qed.

Lemma V1_MasterAddress_state name s :
  snd (V1.MasterAddress net name s)
  = snd (V1.do_loop net (List.length (addrs (sc s))) "SENTINEL"
           (master_args name) RNil None s).
Proof.
  unfold V1.MasterAddress, V1.do, bind, getClient. fold (master_args name).
  destruct (V1.do_loop net (List.length (addrs (sc s))) "SENTINEL"
              (master_args name) RNil None s) as [[[r e]|msg] s'];
    [destruct (redis_Strings r e) |]; reflexivity.
Qed.

(** A call of [MasterAddress] on which every attempt fails is a row of
    [len(addrs)] failed attempts. *)
Lemma all_failed_call resolve rest name s :
  is_MasterAddress net resolve -> Inv rest s ->
  Forall failed (attempts (events_of (resolve name) s)) ->
  failed_attempts net "SENTINEL" (master_args name)
    (List.length (addrs (sc s))) s (snd (resolve name s)).
Proof.
  intros [-> | ->] I Hall.
  - rewrite V1_MasterAddress_state. apply (V1_all_failed net rest).
    + exact I.
    + apply nonempty_or_zero.
    + unfold events_of in *. rewrite <- V1_MasterAddress_state. exact Hall.
  - rewrite V2_MasterAddress_state. apply (V2_all_failed net rest).
    + exact I.
    + apply nonempty_or_zero.
    + unfold events_of in *. rewrite <- V2_MasterAddress_state. exact Hall.
Qed.

(** When every attempt of a call of [MasterAddress] (either copy) fails, on
    a non-empty list, the client is left as it was before the call but for
    the connection, which it no longer holds: [activeAddr] has gone round
    the whole list and is back at its value, and none of the client's
    connections is open. *)
Theorem all_failed_full_circle resolve rest name s :
  is_MasterAddress net resolve -> Inv rest s -> addrs (sc s) <> [] ->
  Forall failed (attempts (events_of (resolve name) s)) ->
  sc (snd (resolve name s))
    = mkClient None (options (sc s)) (addrs (sc s)) (activeAddr (sc s)) /\
  live (nw (snd (resolve name s))) = rest.
Proof.
  intros Hres I Hne Hall.
  pose proof (all_failed_call resolve rest name s Hres I Hall) as Hfa.
  destruct (failed_attempts_trace net rest _ _ _ s _ Hfa I Hne)
    as (I' & Ha & Ho & Hact & Hc & _).
  assert (Hn : 0 < List.length (addrs (sc s)))
    by (destruct (addrs (sc s)); [contradiction | cbn; lia]).
  specialize (Hc Hn).
  destruct (inv_index I) as [E|E]; [contradiction|].
  rewrite <- (Z.mul_1_l (Z.of_nat (List.length (addrs (sc s))))) in Hact at 1.
  rewrite Z_mod_plus_full, Z.mod_small in Hact by lia.
  split.
  - destruct (sc (snd (resolve name s))) as [c o a i]. cbn in *. congruence.
  - rewrite (inv_live I'). unfold owned. rewrite Hc. reflexivity.
Qed.

(** When the client holds no connection and every attempt of a call of
    [MasterAddress] (either copy) fails, the call dials every address once,
    with the client's options, in the cyclic order of the list starting at
    [activeAddr]: the [j]-th dial goes to [addrs[(activeAddr + j) mod n]]. *)
Theorem sentinels_dialed_in_turn resolve rest name s :
  is_MasterAddress net resolve -> Inv rest s -> conn (sc s) = None ->
  Forall failed (attempts (events_of (resolve name) s)) ->
  dial_requests (events_of (resolve name) s)
  = map (fun j => (monitor_at s j, options (sc s)))
        (seq 0 (List.length (addrs (sc s)))).
Proof.
  intros Hres I Hnone Hall.
  pose proof (all_failed_call resolve rest name s Hres I Hall) as Hfa.
  destruct (addrs (sc s)) as [|a l] eqn:Ea.
  - clear Hfa Hall. unfold events_of.
    destruct Hres as [-> | ->];
      [rewrite V1_MasterAddress_state | rewrite V2_MasterAddress_state];
      rewrite Ea; cbn; rewrite skipn_all; reflexivity.
  - rewrite <- Ea in *.
    assert (Hne : addrs (sc s) <> []) by (rewrite Ea; discriminate).
    destruct (failed_attempts_trace net rest _ _ _ s _ Hfa I Hne)
      as (_ & _ & _ & _ & _ & evs & Hl & _ & Hdial).
    rewrite (events_of_log (resolve name) s evs Hl). apply Hdial. exact Hnone.
Qed.

Lemma V1_loop_count rest cmd args m :
  forall s r0 e0,
  Inv rest s -> (m = 0 \/ addrs (sc s) <> []) ->
  List.length (attempts (events_of (V1.do_loop net m cmd args r0 e0) s)) = m.
Proof.
  induction m as [|m IH]; intros s r0 e0 I Hm.
  - unfold events_of. cbn. rewrite skipn_all. reflexivity.
  - destruct Hm as [Hm|Hne]; [discriminate|].
    destruct (doOnce_spec net rest cmd args s I Hne)
      as (r & e & s1 & evs1 & Hd & Ha1 & Ho1 & Hi1 & Hl1 & Hat1 & I1 & Hc1).
    destruct e as [e|].
    + destruct (failed_step net rest cmd args s r e s1 I Hne Hd)
        as (_ & I2 & Ha2 & _).
      assert (Hm2 : m = 0 \/ addrs (sc (rotated s1)) <> [])
        by (right; rewrite Ha2; exact Hne).
      destruct (V1_do_loop_log net rest cmd args m (rotated s1) r (Some e) I2 Hm2)
        as (evs2 & Hl2).
      rewrite (events_of_log _ s (evs1 ++ evs2)).
      * rewrite attempts_app, length_app, Hat1.
        rewrite <- (events_of_log _ _ evs2 Hl2), (IH _ _ _ I2 Hm2). reflexivity.
      * rewrite (V1_fail_unfold net rest m cmd args r0 e0 s r e s1 I Hne Hd).
        rewrite Hl2. cbn [rotated nw]. rewrite Hl1. symmetry. apply app_assoc.
    + assert (Hm1 : m = 0 \/ addrs (sc s1) <> [])
        by (right; rewrite Ha1; exact Hne).
      destruct (V1_do_loop_log net rest cmd args m s1 r None I1 Hm1)
        as (evs2 & Hl2).
      rewrite (events_of_log _ s (evs1 ++ evs2)).
      * rewrite attempts_app, length_app, Hat1.
        rewrite <- (events_of_log _ _ evs2 Hl2), (IH _ _ _ I1 Hm1). reflexivity.
      * rewrite (V1_ok_unfold net m cmd args r0 e0 s r s1 Hd).
        rewrite Hl2, Hl1. symmetry. apply app_assoc.
Qed.

(** [MasterAddress] of the first copy makes [len(addrs)] attempts on every
    call, whether they succeed or fail. *)
Theorem V1_always_n_attempts rest name s :
  Inv rest s ->
  List.length (attempts (events_of (V1.MasterAddress net name) s))
  = List.length (addrs (sc s)).
Proof.
  intros I. unfold events_of. rewrite V1_MasterAddress_state.
  apply (V1_loop_count rest "SENTINEL" (master_args name)
           (List.length (addrs (sc s))) s RNil None I (nonempty_or_zero _)).
Qed.

Lemma V2_loop_shape rest cmd args m :
  forall s r0 e0,
  Inv rest s -> (m = 0 \/ addrs (sc s) <> []) ->
  exists r e s' errs,
    V2.do_loop net m cmd args r0 e0 s = (Return (r, e), s') /\ Inv rest s' /\
    ((e = None /\
      attempts (events_of (V2.do_loop net m cmd args r0 e0) s)
        = map Some errs ++ [None] /\
      List.length errs < m /\ exists k, conn (sc s') = Some k) \/
     (attempts (events_of (V2.do_loop net m cmd args r0 e0) s) = map Some errs /\
      List.length errs = m /\ e = last (map Some errs) e0 /\
      (0 < m -> conn (sc s') = None /\ e <> None))).
Proof.
  induction m as [|m IH]; intros s r0 e0 I Hm.
  - exists r0, e0, s, []. conj; auto. right.
    unfold events_of. cbn. rewrite skipn_all. conj; auto. intros H; lia.
  - destruct Hm as [Hm|Hne]; [discriminate|].
    destruct (doOnce_spec net rest cmd args s I Hne)
      as (r & e & s1 & evs1 & Hd & Ha1 & Ho1 & Hi1 & Hl1 & Hat1 & I1 & Hc1).
    destruct e as [e|].
    + destruct (failed_step net rest cmd args s r e s1 I Hne Hd)
        as (_ & I2 & Ha2 & _ & Hc2 & _).
      assert (Hm2 : m = 0 \/ addrs (sc (rotated s1)) <> [])
        by (right; rewrite Ha2; exact Hne).
      destruct (V2_do_loop_log net rest cmd args m (rotated s1) r (Some e) I2 Hm2)
        as (evs2 & Hl2).
      destruct (IH (rotated s1) r (Some e) I2 Hm2)
        as (r' & e' & s' & errs & Hrun & I' & Hshape).
      rewrite (events_of_log _ _ evs2 Hl2) in Hshape.
      exists r', e', s'.
      assert (Hev : events_of (V2.do_loop net (S m) cmd args r0 e0) s
                    = evs1 ++ evs2).
      { apply events_of_log.
        rewrite (V2_fail_unfold net rest m cmd args r0 e0 s r e s1 I Hne Hd).
        rewrite Hl2. cbn [rotated nw]. rewrite Hl1. symmetry. apply app_assoc. }
      rewrite Hev, attempts_app, Hat1. cbn [app].
      rewrite (V2_fail_unfold net rest m cmd args r0 e0 s r e s1 I Hne Hd).
      exists (e :: errs). conj; auto.
      destruct Hshape as [(He & Hat & Hlen & Hk) | (Hat & Hlen & He & Hpos)].
      * left. conj; [exact He | rewrite Hat; reflexivity | cbn; lia | exact Hk].
      * right. conj; [rewrite Hat; reflexivity | cbn; lia | |].
        -- cbn [map]. rewrite last_cons. exact He.
        -- intros _. destruct m as [|m].
           ++ destruct errs; [|discriminate]. cbn in He. subst e'.
              rewrite Hrun in *. cbn in Hrun. injection Hrun as <- <-.
              split; [exact Hc2 | discriminate].
           ++ apply Hpos. lia.
    + exists r, None, s1, [].
      rewrite (V2_ok_unfold net m cmd args r0 e0 s r s1 Hd).
      conj; auto. left.
      rewrite (events_of_log _ s evs1)
        by (rewrite (V2_ok_unfold net m cmd args r0 e0 s r s1 Hd); exact Hl1).
      destruct Hc1 as (k & Hk & _).
      conj; [reflexivity | rewrite Hat1; reflexivity | cbn; lia |
             exists k; exact Hk].
Qed.

(** The attempts of [do] in the second copy are a row of failures followed
    either by one success, which ends the call with no error before the
    list is exhausted, or by nothing, after [len(addrs)] failures, and then
    the error returned is that of the last attempt ([nil] on the empty
    list). *)
Theorem V2_attempts_shape rest cmd args s :
  Inv rest s ->
  exists r e s' errs,
    V2.do net cmd args s = (Return (r, e), s') /\
    ((e = None /\
      attempts (events_of (V2.do net cmd args) s) = map Some errs ++ [None] /\
      List.length errs < List.length (addrs (sc s))) \/
     (attempts (events_of (V2.do net cmd args) s) = map Some errs /\
      List.length errs = List.length (addrs (sc s)) /\
      e = last (map Some errs) None)).
Proof.
  intros I.
  destruct (V2_loop_shape rest cmd args (List.length (addrs (sc s))) s RNil None
              I (nonempty_or_zero _))
    as (r & e & s' & errs & Hrun & _ & Hshape).
  exists r, e, s', errs.
  change (V2.do net cmd args s)
    with (V2.do_loop net (List.length (addrs (sc s))) cmd args RNil None s).
  change (events_of (V2.do net cmd args) s)
    with (events_of (V2.do_loop net (List.length (addrs (sc s))) cmd args
                       RNil None) s).
  split; [exact Hrun|].
  destruct Hshape as [(He & Hat & Hlen & _) | (Hat & Hlen & He & _)];
    [left | right]; conj; assumption.
Qed.

(** On a non-empty list, [do] of the second copy returns no error exactly
    when it leaves the client holding a connection: after a success the
    client holds one open connection, dialed to [addrs[activeAddr]]; after
    an error it holds none and none of its connections is open. *)
Theorem V2_do_leaves_connection_iff_success rest cmd args s r e s' :
  Inv rest s -> addrs (sc s) <> [] ->
  V2.do net cmd args s = (Return (r, e), s') ->
  match e with
  | None => exists k, conn (sc s') = Some k /\ live (nw s') = k :: rest /\
                      nth_error (addrs (sc s')) (Z.to_nat (activeAddr (sc s')))
                      = Some (peer k)
  | Some _ => conn (sc s') = None /\ live (nw s') = rest
  end.
Proof.
  intros I Hne Hdo.
  destruct (V2_loop_shape rest cmd args (List.length (addrs (sc s))) s RNil None
              I (nonempty_or_zero _))
    as (r' & e' & s'' & errs & Hrun & I' & Hshape).
  change (V2.do net cmd args s)
    with (V2.do_loop net (List.length (addrs (sc s))) cmd args RNil None s)
    in Hdo.
  rewrite Hdo in Hrun. injection Hrun as <- <- <-.
  assert (Hn : 0 < List.length (addrs (sc s)))
    by (destruct (addrs (sc s)); [contradiction | cbn; lia]).
  destruct Hshape as [(He & _ & _ & k & Hk) | (_ & _ & _ & Hpos)].
  - subst e. exists k. conj; [exact Hk | |].
    + rewrite (inv_live I'). unfold owned. rewrite Hk. reflexivity.
    + apply (inv_peer I' Hk).
  - destruct (Hpos Hn) as [Hc He]. destruct e as [e|]; [|contradiction].
    split; [exact Hc|]. rewrite (inv_live I'). unfold owned. rewrite Hc.
    reflexivity.
Qed.
End Calls.

Lemma eqb_string_iff (a b x y : string) :
  (a = x <-> b = y) -> String.eqb a x = String.eqb b y.
Proof.
  intros H. destruct (String.eqb_spec a x) as [E|E];
    destruct (String.eqb_spec b y) as [F|F]; try reflexivity; tauto.
Qed.

Lemma eqb_Z_iff (a b : Z) :
  (a = 0%Z <-> b = 0%Z) -> Z.eqb a 0 = Z.eqb b 0.
Proof.
  intros H. destruct (Z.eqb_spec a 0) as [E|E];
    destruct (Z.eqb_spec b 0) as [F|F]; try reflexivity; tauto.
Qed.

Lemma eqb_length_iff {A} (a b : list A) :
  (a = [] <-> b = []) ->
  Nat.eqb (List.length a) 0 = Nat.eqb (List.length b) 0.
Proof.
  intros H. destruct a, b; try reflexivity.
  - destruct H as [H _]. discriminate (H eq_refl).
  - destruct H as [_ H]. discriminate (H eq_refl).
Qed.

(** The verdict of [validateConfig] depends only on whether the master
    name is empty, whether the list of sentinels is empty and whether each
    of the three sentinel timeouts and the connect timeout of the data node
    is zero: the read and write timeouts of the data node, the addresses
    themselves and the sign of a timeout do not matter. *)
Theorem validateConfig_depends_only (conf conf' : V2.Config) :
  (V2.Master conf = "" <-> V2.Master conf' = "") ->
  (V2.Sentinels conf = [] <-> V2.Sentinels conf' = []) ->
  (V2.Connect (V2.SentinelTimeouts conf) = 0%Z
   <-> V2.Connect (V2.SentinelTimeouts conf') = 0%Z) ->
  (V2.Read (V2.SentinelTimeouts conf) = 0%Z
   <-> V2.Read (V2.SentinelTimeouts conf') = 0%Z) ->
  (V2.Write (V2.SentinelTimeouts conf) = 0%Z
   <-> V2.Write (V2.SentinelTimeouts conf') = 0%Z) ->
  (V2.Connect (V2.RedisTimeouts conf) = 0%Z
   <-> V2.Connect (V2.RedisTimeouts conf') = 0%Z) ->
  V2.validateConfig conf = V2.validateConfig conf'.
Proof.
  intros Hm Hs Hc Hr Hw Hd. unfold V2.validateConfig, V2.Nanoseconds.
  rewrite (eqb_string_iff _ _ _ _ Hm), (eqb_length_iff _ _ Hs),
    (eqb_Z_iff _ _ Hc), (eqb_Z_iff _ _ Hr), (eqb_Z_iff _ _ Hw),
    (eqb_Z_iff _ _ Hd).
  reflexivity.
Qed.

Lemma slice_at_out {A} (a : list A) (i : Z) :
  (Z.of_nat (List.length a) <= i)%Z -> slice_at a i = Panic "index out of range".
Proof.
  intros H. unfold slice_at.
  destruct (Z.ltb_spec i (Z.of_nat (List.length a))) as [E|E]; [lia|].
  rewrite andb_false_r. reflexivity.
Qed.

Section More.
Variable net : Net.

(** With no address, [do] of either copy makes no attempt, returns a [nil]
    reply and a [nil] error and leaves the state as it is, and
    [MasterAddress] returns the empty string with the error of the decoder
    for a [nil] reply. *)
Theorem empty_address_list resolve name s :
  is_MasterAddress net resolve -> addrs (sc s) = [] ->
  V1.do net "SENTINEL" (master_args name) s = (Return (RNil, None), s) /\
  V2.do net "SENTINEL" (master_args name) s = (Return (RNil, None), s) /\
  resolve name s = (Return ("", Some ErrNil), s).
Proof.
  intros Hres Ha.
  assert (H1 : V1.do net "SENTINEL" (master_args name) s = (Return (RNil, None), s))
    by (unfold V1.do, bind, getClient; rewrite Ha; reflexivity).
  assert (H2 : V2.do net "SENTINEL" (master_args name) s = (Return (RNil, None), s))
    by (unfold V2.do, bind, getClient; rewrite Ha; reflexivity).
  conj; [exact H1 | exact H2 |].
  destruct Hres as [-> | ->].
  - unfold V1.MasterAddress, bind. fold (master_args name). rewrite H1.
    reflexivity.
  - unfold V2.MasterAddress, bind. fold (master_args name). rewrite H2.
    reflexivity.
Qed.

(** [doOnce] dials only when the client holds no connection, and then once,
    to [addrs[activeAddr]] with the client's options. *)
Theorem lazy_dial rest cmd args s :
  Inv rest s -> addrs (sc s) <> [] ->
  dial_requests (events_of (doOnce net cmd args) s)
  = match conn (sc s) with
    | Some _ => []
    | None => [(monitor_at s 0, options (sc s))]
    end.
Proof. apply doOnce_dials. Qed.

Lemma TestRole_state c role s :
  snd (TestRole net (Some c) role s)
  = mkSys (sc s)
      (emit (EvDo c "ROLE" [] (snd (on_do net (log (nw s)) c "ROLE" []))) (nw s)).
Proof.
  unfold TestRole, bind, deref, ret, conn_Do.
  cbn -[redis_Values redis_String].
  destruct (on_do net (log (nw s)) c "ROLE" []) as [r e].
  cbn -[redis_Values redis_String].
  destruct (redis_Values r e) as [res [e'|]]; [reflexivity|].
  destruct res as [|x l]; [reflexivity|].
  unfold index, slice_at. cbn -[redis_String].
  destruct (redis_String x None) as [role' [e'|]]; [reflexivity|].
  destruct (String.eqb role' role); reflexivity.
Qed.

(** [TestRole], and the [TestOnBorrow] closure with it, asks the library
    for one thing only, whatever the outcome: the command [ROLE] with no
    argument on the connection it is given.  The package itself calls
    neither [Close] nor [Dial] there, and the client is not touched.  On a
    [nil] connection they panic before anything is sent. *)
Theorem role_check_only_asks c role t s :
  let asked := [EvDo c "ROLE" [] (snd (on_do net (log (nw s)) c "ROLE" []))] in
  events_of (TestRole net (Some c) role) s = asked /\
  sc (snd (TestRole net (Some c) role s)) = sc s /\
  events_of (testOnBorrow net (Some c) t) s = asked /\
  sc (snd (testOnBorrow net (Some c) t s)) = sc s /\
  TestRole net None role s
    = (Panic "invalid memory address or nil pointer dereference", s) /\
  testOnBorrow net None t s
    = (Panic "invalid memory address or nil pointer dereference", s).
Proof.
  intros asked.
  assert (Hb : snd (testOnBorrow net (Some c) t s)
               = snd (TestRole net (Some c) "master" s)).
  { unfold testOnBorrow, bind.
    destruct (TestRole net (Some c) "master" s) as [[[e|]|msg] s'];
      reflexivity. }
  assert (Hev : forall r, events_of (TestRole net (Some c) r) s = asked).
  { intros r. apply events_of_log. rewrite TestRole_state. reflexivity. }
  conj.
  - apply Hev.
  - rewrite TestRole_state. reflexivity.
  - unfold events_of. rewrite Hb. apply Hev.
  - rewrite Hb, TestRole_state. reflexivity.
  - reflexivity.
  - reflexivity.
Qed.

Lemma TestRole_result c role s :
  fst (TestRole net (Some c) role s) =
  let answer := on_do net (log (nw s)) c "ROLE" [] in
  let (res, err) := redis_Values (fst answer) (snd answer) in
  match err with
  | Some e => Return (Some e)
  | None =>
      match res with
      | [] => Panic "index out of range"
      | x :: _ =>
          let (role', err') := redis_String x None in
          match err' with
          | Some e => Return (Some e)
          | None =>
              if String.eqb role' role then Return None
              else Return (Some "role check failed")
          end
      end
  end.
Proof.
  unfold TestRole, bind, deref, ret, conn_Do.
  cbn -[redis_Values redis_String].
  destruct (on_do net (log (nw s)) c "ROLE" []) as [r e].
  cbn -[redis_Values redis_String].
  destruct (redis_Values r e) as [res [e'|]]; [reflexivity|].
  destruct res as [|x l]; [reflexivity|].
  unfold index, slice_at. cbn -[redis_String].
  destruct (redis_String x None) as [role' [e'|]]; [reflexivity|].
  destruct (String.eqb role' role); reflexivity.
Qed.

(** The [TestOnBorrow] closure returns [nil] exactly when the answer to
    [ROLE] is an array whose first element decodes to [master]; an error of
    [TestRole] is returned behind the prefix [failed role check: ]; the time
    it is given plays no part. *)
Theorem testOnBorrow_accepts_master_only c t s :
  (fst (testOnBorrow net (Some c) t s) = Return None <->
   exists x l, on_do net (log (nw s)) c "ROLE" [] = (RArray (x :: l), None) /\
               redis_String x None = ("master", None)) /\
  (forall e, fst (TestRole net (Some c) "master" s) = Return (Some e) ->
     fst (testOnBorrow net (Some c) t s)
     = Return (Some ("failed role check: " ++ e)%string)) /\
  (forall t', testOnBorrow net (Some c) t' s = testOnBorrow net (Some c) t s).
Proof.
  assert (Hwrap : fst (testOnBorrow net (Some c) t s) =
    match fst (TestRole net (Some c) "master" s) with
    | Return None => Return None
    | Return (Some e) => Return (Some ("failed role check: " ++ e)%string)
    | Panic msg => Panic msg
    end).
  { unfold testOnBorrow, bind.
    destruct (TestRole net (Some c) "master" s) as [[[e|]|msg] s'];
      reflexivity. }
  conj.
  - rewrite Hwrap, TestRole_result.
    destruct (on_do net (log (nw s)) c "ROLE" []) as [r e]. cbn [fst snd].
    split.
    + destruct e as [e|]; [cbn; discriminate|].
      destruct r; cbn -[redis_String]; try discriminate.
      destruct l as [|x l]; [discriminate|].
      destruct (redis_String x None) as [role' [e'|]] eqn:Es; [discriminate|].
      destruct (String.eqb_spec role' "master") as [->|]; [|discriminate].
      intros _. exists x, l. split; [reflexivity | exact Es].
    + intros (x & l & [= -> ->] & Hs). cbn -[redis_String]. rewrite Hs.
      reflexivity.
  - intros e He. rewrite Hwrap, He. reflexivity.
  - reflexivity.
Qed.
End More.

Section Adapter.
Variable net : Net.

Lemma redis_Dial_ok addr opts s1 c s2 :
  redis_Dial net addr opts s1 = (Return (Some c, None), s2) ->
  sc s2 = sc s1 /\ live (nw s2) = c :: live (nw s1) /\ peer c = addr.
Proof.
  unfold redis_Dial. destruct (on_dial net (log (nw s1)) addr opts) as [e|];
    [discriminate|].
  intros [= <- <-]. conj; reflexivity.
Qed.

Lemma redis_Dial_err addr opts s1 c e s2 :
  redis_Dial net addr opts s1 = (Return (c, Some e), s2) ->
  c = None /\ sc s2 = sc s1 /\ live (nw s2) = live (nw s1) /\
  log (nw s2) = log (nw s1) ++ [EvDial addr opts (Some e)].
Proof.
  unfold redis_Dial. destruct (on_dial net (log (nw s1)) addr opts) as [e'|];
    [|discriminate].
  intros [= <- <- <-]. conj; reflexivity.
Qed.

Lemma rejected_stays_open addr opts s1 c s2 res s' :
  redis_Dial net addr opts s1 = (Return (Some c, None), s2) ->
  TestRole net (Some c) "master" s2 = (res, s') ->
  sc s' = sc s1 /\ live (nw s') = c :: live (nw s1).
Proof.
  intros Hd Ht. destruct (redis_Dial_ok addr opts s1 c s2 Hd) as (Hsc & Hl & _).
  pose proof (TestRole_state net c "master" s2) as Hs. rewrite Ht in Hs.
  cbn [snd] in Hs. subst s'. cbn. split; assumption.
Qed.

Lemma role_check_after_dial addr opts s1 c s2 res s' :
  redis_Dial net addr opts s1 = (Return (Some c, None), s2) ->
  TestRole net (Some c) "master" s2 = (res, s') ->
  log (nw s')
  = log (nw s1)
    ++ [EvDial addr opts None;
        EvDo c "ROLE" [] (snd (on_do net (log (nw s2)) c "ROLE" []))].
Proof.
  intros Hd Ht.
  pose proof (TestRole_state net c "master" s2) as Hs. rewrite Ht in Hs.
  cbn [snd] in Hs. subst s'. cbn [nw emit log].
  unfold redis_Dial in Hd.
  destruct (on_dial net (log (nw s1)) addr opts) as [e|]; [discriminate|].
  injection Hd as <- <-. cbn [nw log]. rewrite <- app_assoc. reflexivity.
Qed.

(** When the role check of the [Dial] closure (either copy) returns an
    error, the closure returns without a call of [Close]: after
    [MasterAddress] it has dialed the data node and sent [ROLE], and that is
    all; the client is as [MasterAddress] left it.  When [ROLE] itself was
    answered with no error, so that the check failed on the role or on the
    shape of the reply, the connection dialed is still open when the
    closure returns. *)
Theorem dial_rejected_connection_stays_open :
  (forall conf s addr s1 c s2 e s',
      V2.MasterAddress net (V2.Master conf) s = (Return (addr, None), s1) ->
      redis_Dial net addr (redis_options conf) s1
        = (Return (Some c, None), s2) ->
      TestRole net (Some c) "master" s2 = (Return (Some e), s') ->
      snd (V2.dial net conf s) = s' /\ sc s' = sc s1 /\
      log (nw s')
      = log (nw s1)
        ++ [EvDial addr (redis_options conf) None;
            EvDo c "ROLE" [] (snd (on_do net (log (nw s2)) c "ROLE" []))] /\
      (snd (on_do net (log (nw s2)) c "ROLE" []) = None ->
       live (nw s') = c :: live (nw s1))) /\
  (forall conf s addr s1 t0 t1 t2 c s2 e s',
      V1.MasterAddress net (V1.Name conf) s = (Return (addr, None), s1) ->
      slice_at (V1.RedisTimeouts conf) 0 = Return t0 ->
      slice_at (V1.RedisTimeouts conf) 1 = Return t1 ->
      slice_at (V1.RedisTimeouts conf) 2 = Return t2 ->
      redis_Dial net addr (redis_options_V1 t0 t1 t2) s1
        = (Return (Some c, None), s2) ->
      TestRole net (Some c) "master" s2 = (Return (Some e), s') ->
      snd (V1.dial net conf s) = s' /\ sc s' = sc s1 /\
      log (nw s')
      = log (nw s1)
        ++ [EvDial addr (redis_options_V1 t0 t1 t2) None;
            EvDo c "ROLE" [] (snd (on_do net (log (nw s2)) c "ROLE" []))] /\
      (snd (on_do net (log (nw s2)) c "ROLE" []) = None ->
       live (nw s') = c :: live (nw s1))).
Proof.
  split.
  - intros conf s addr s1 c s2 e s' Em Ed Et.
    destruct (rejected_stays_open _ _ _ _ _ _ _ Ed Et) as [Hsc Hl].
    conj; [| exact Hsc | exact (role_check_after_dial _ _ _ _ _ _ _ Ed Et)
           | intros _; exact Hl].
    unfold V2.dial, bind. fold (redis_options conf). rewrite Em, Ed, Et.
    reflexivity.
  - intros conf s addr s1 t0 t1 t2 c s2 e s' Em E0 E1 E2 Ed Et.
    destruct (rejected_stays_open _ _ _ _ _ _ _ Ed Et) as [Hsc Hl].
    conj; [| exact Hsc | exact (role_check_after_dial _ _ _ _ _ _ _ Ed Et)
           | intros _; exact Hl].
    unfold V1.dial, bind, index. rewrite Em, E0, E1, E2.
    fold (redis_options_V1 t0 t1 t2). rewrite Ed, Et. reflexivity.
Qed.

(** The [Dial] closure (either copy) stops at the first step that fails.
    When [MasterAddress] returns an error it returns that error behind
    [sentinel: get master address: ] in the state [MasterAddress] left,
    without dialing the data node; when the dial fails it returns the error
    behind [dial error: ], no connection has been opened and no role check
    is made. *)
Theorem dial_stops_at_first_failure :
  (forall conf s addr e s1,
      V2.MasterAddress net (V2.Master conf) s = (Return (addr, Some e), s1) ->
      V2.dial net conf s
      = (Return (None, Some ("sentinel: get master address: " ++ e)%string), s1)) /\
  (forall conf s addr s1 c e s2,
      V2.MasterAddress net (V2.Master conf) s = (Return (addr, None), s1) ->
      redis_Dial net addr (redis_options conf) s1 = (Return (c, Some e), s2) ->
      V2.dial net conf s
      = (Return (None, Some ("dial error: " ++ e)%string), s2) /\
      sc s2 = sc s1 /\ live (nw s2) = live (nw s1) /\
      log (nw s2) = log (nw s1) ++ [EvDial addr (redis_options conf) (Some e)]) /\
  (forall conf s addr e s1,
      V1.MasterAddress net (V1.Name conf) s = (Return (addr, Some e), s1) ->
      V1.dial net conf s
      = (Return (None, Some ("sentinel: get master address: " ++ e)%string), s1)) /\
  (forall conf s addr s1 t0 t1 t2 c e s2,
      V1.MasterAddress net (V1.Name conf) s = (Return (addr, None), s1) ->
      slice_at (V1.RedisTimeouts conf) 0 = Return t0 ->
      slice_at (V1.RedisTimeouts conf) 1 = Return t1 ->
      slice_at (V1.RedisTimeouts conf) 2 = Return t2 ->
      redis_Dial net addr (redis_options_V1 t0 t1 t2) s1
        = (Return (c, Some e), s2) ->
      V1.dial net conf s
      = (Return (None, Some ("dial error: " ++ e)%string), s2) /\
      sc s2 = sc s1 /\ live (nw s2) = live (nw s1) /\
      log (nw s2)
      = log (nw s1) ++ [EvDial addr (redis_options_V1 t0 t1 t2) (Some e)]).
Proof.
  conj.
  - intros conf s addr e s1 Em. unfold V2.dial, bind. rewrite Em. reflexivity.
  - intros conf s addr s1 c e s2 Em Ed.
    destruct (redis_Dial_err _ _ _ _ _ _ Ed) as (Hc & Hsc & Hl & Hlog).
    conj; try assumption.
    unfold V2.dial, bind. fold (redis_options conf). rewrite Em, Ed.
    reflexivity.
  - intros conf s addr e s1 Em. unfold V1.dial, bind. rewrite Em. reflexivity.
  - intros conf s addr s1 t0 t1 t2 c e s2 Em E0 E1 E2 Ed.
    destruct (redis_Dial_err _ _ _ _ _ _ Ed) as (Hc & Hsc & Hl & Hlog).
    conj; try assumption.
    unfold V1.dial, bind, index. rewrite Em, E0, E1, E2.
    fold (redis_options_V1 t0 t1 t2). rewrite Ed. reflexivity.
Qed.

(** The first copy indexes the timeout slices.  [NewPool] takes the first
    three sentinel timeouts and panics when there are fewer; its [Dial]
    closure panics when the data node has fewer than three timeouts, once
    [MasterAddress] has succeeded and before it dials. *)
Theorem V1_timeouts_are_indexed :
  (forall conf,
      3 <= List.length (V1.SentinelTimeouts conf) ->
      exists t0 t1 t2 rest p,
        V1.SentinelTimeouts conf = t0 :: t1 :: t2 :: rest /\
        V1.NewPool net conf
        = Return (p, NewClient (V1.Sentinels conf)
                       [DialConnectTimeout t0; DialReadTimeout t1;
                        DialWriteTimeout t2])) /\
  (forall conf,
      List.length (V1.SentinelTimeouts conf) < 3 ->
      V1.NewPool net conf = Panic "index out of range") /\
  (forall conf s addr s1,
      V1.MasterAddress net (V1.Name conf) s = (Return (addr, None), s1) ->
      List.length (V1.RedisTimeouts conf) < 3 ->
      V1.dial net conf s = (Panic "index out of range", s1)).
Proof.
  conj.
  - intros [nm sl st rt] H. cbn in H.
    destruct st as [|t0 [|t1 [|t2 rest]]]; cbn in H; try lia.
    exists t0, t1, t2, rest. eexists. split; [reflexivity|].
    unfold V1.NewPool. cbn [V1.SentinelTimeouts V1.Sentinels].
    destruct (slice_at_ok (t0 :: t1 :: t2 :: rest) 0) as (x0 & -> & [= <-]);
      [cbn [List.length]; lia|].
    destruct (slice_at_ok (t0 :: t1 :: t2 :: rest) 1) as (x1 & -> & [= <-]);
      [cbn [List.length]; lia|].
    destruct (slice_at_ok (t0 :: t1 :: t2 :: rest) 2) as (x2 & -> & [= <-]);
      [cbn [List.length]; lia|].
    reflexivity.
  - intros [nm sl st rt] H. cbn in H.
    destruct st as [|t0 [|t1 [|t2 rest]]]; cbn in H; try lia; reflexivity.
  - intros [nm sl st rt] s addr s1 Em H. cbn in H, Em.
    unfold V1.dial, bind, index. cbn [V1.Name V1.RedisTimeouts]. rewrite Em.
    destruct rt as [|t0 [|t1 [|t2 rest]]]; cbn in H; try lia; reflexivity.
Qed.

Lemma Close_frame s :
  sc (snd (Close s))
    = mkClient None (options (sc s)) (addrs (sc s)) (activeAddr (sc s)) /\
  events_of Close s
    = match conn (sc s) with Some k => [EvClose k] | None => [] end.
Proof.
  destruct s as [[c o a i] n]. unfold events_of, Close, bind, getClient.
  destruct c as [k|]; cbn -[filter skipn].
  - split; [reflexivity|].
    rewrite skipn_app, skipn_all, Nat.sub_diag. reflexivity.
  - split; [reflexivity|]. rewrite skipn_all. reflexivity.
Qed.

(** [Close] closes the connection held, if any, and changes nothing else
    of the client; the next attempt dials [addrs[activeAddr]] anew. *)
Theorem close_then_redial rest cmd args s :
  Inv rest s -> addrs (sc s) <> [] ->
  events_of Close s
    = match conn (sc s) with Some k => [EvClose k] | None => [] end /\
  sc (snd (Close s))
    = mkClient None (options (sc s)) (addrs (sc s)) (activeAddr (sc s)) /\
  live (nw (snd (Close s))) = rest /\
  dial_requests (events_of (doOnce net cmd args) (snd (Close s)))
    = [(monitor_at s 0, options (sc s))].
Proof.
  intros I Hne. destruct (Close_frame s) as [Hsc Hev].
  destruct (Close_spec rest s I) as (s' & Hrun & I' & Hc & _).
  rewrite Hrun in *. cbn [snd] in *.
  conj; [exact Hev | exact Hsc | |].
  - rewrite (inv_live I'). unfold owned. rewrite Hc. reflexivity.
  - assert (Hne' : addrs (sc s') <> []) by (rewrite Hsc; exact Hne).
    rewrite (doOnce_dials net rest cmd args s' I' Hne'), Hc.
    unfold monitor_at. rewrite Hsc. reflexivity.
Qed.
End Adapter.

(** ** Runs of the further properties *)

Lemma V2_success_stops_witness :
  queries (events_of (V2.do (all_up RNil) "SENTINEL" (master_args "mycluster")) s0)
    = 1 /\
  activeAddr (sc (snd (doOnce (all_up RNil) "SENTINEL" (master_args "mycluster") s0)))
    = 0%Z.
Proof.
  destruct (V2_success_stops (all_up RNil) [] "SENTINEL" (master_args "mycluster")
              s0 addr_reply
              (snd (doOnce (all_up RNil) "SENTINEL" (master_args "mycluster") s0)))
    as (_ & Hq & Ha & _).
  - apply Inv_boot. vm_compute. discriminate.
  - discriminate.
  - reflexivity.
  - split; [exact Hq | exact Ha].
Defined.

Lemma V2_NewPool_validates_witness :
  (exists p, V2.NewPool all_down conf_ok
             = (Some (p, NewClient monitors short), None)) /\
  V2.NewPool all_down (V2.mkConfig "" monitors (V2.mkTimeouts 0 0 0)%Z
                                   (V2.mkTimeouts 0 0 0)%Z)
    = (None, Some "master is not set").
Proof.
  split.
  - destruct (proj2 (V2_NewPool_validates all_down conf_ok)) as (_ & p & Hp & _).
    + vm_compute. intros [H|[H|[H|[H|[H|H]]]]]; discriminate H.
    + exists p. exact Hp.
  - destruct (proj1 (V2_NewPool_validates all_down
                       (V2.mkConfig "" monitors (V2.mkTimeouts 0 0 0)%Z
                                    (V2.mkTimeouts 0 0 0)%Z)))
      as (e & He & Hp).
    + left. reflexivity.
    + rewrite Hp. vm_compute in He. injection He as <-. reflexivity.
Defined.

Lemma validateConfig_depends_only_witness :
  V2.validateConfig conf_odd = V2.validateConfig conf_ok.
Proof.
  apply validateConfig_depends_only; vm_compute; split; discriminate.
Defined.

Lemma empty_address_list_witness :
  V2.MasterAddress all_down "mycluster" s_empty
  = (Return ("", Some ErrNil), s_empty).
Proof.
  apply (empty_address_list all_down (V2.MasterAddress all_down) "mycluster"
           s_empty).
  - right. reflexivity.
  - reflexivity.
Defined.

Lemma V1_always_n_attempts_witness :
  List.length (attempts (events_of (V1.MasterAddress (all_up RNil) "mycluster") s3))
  = 3.
Proof.
  apply (V1_always_n_attempts (all_up RNil) [] "mycluster" s3).
  apply Inv_boot. vm_compute. discriminate.
Defined.

Lemma V2_attempts_shape_witness :
  exists r e s' errs,
    V2.do first_times_out "SENTINEL" (master_args "mycluster") s3
      = (Return (r, e), s') /\
    ((e = None /\
      attempts (events_of (V2.do first_times_out "SENTINEL"
                             (master_args "mycluster")) s3)
        = map Some errs ++ [None] /\
      List.length errs < List.length (addrs (sc s3))) \/
     (attempts (events_of (V2.do first_times_out "SENTINEL"
                             (master_args "mycluster")) s3)
        = map Some errs /\
      List.length errs = List.length (addrs (sc s3)) /\
      e = last (map Some errs) None)).
Proof.
  apply (V2_attempts_shape first_times_out []).
  apply Inv_boot. vm_compute. discriminate.
Defined.

Lemma all_failed_full_circle_witness :
  sc (snd (V1.MasterAddress all_down "mycluster" s3))
    = mkClient None short three_monitors 0 /\
  live (nw (snd (V1.MasterAddress all_down "mycluster" s3))) = [].
Proof.
  apply (all_failed_full_circle all_down (V1.MasterAddress all_down) []
           "mycluster" s3).
  - left. reflexivity.
  - apply Inv_boot. vm_compute. discriminate.
  - discriminate.
  - vm_compute. repeat (constructor; [intros H; discriminate H|]). constructor.
Defined.

Lemma sentinels_dialed_in_turn_witness :
  dial_requests (events_of (V2.MasterAddress all_down "mycluster") s3)
  = map (fun j => (monitor_at s3 j, options (sc s3)))
        (seq 0 (List.length (addrs (sc s3)))).
Proof.
  apply (sentinels_dialed_in_turn all_down (V2.MasterAddress all_down) []).
  - right. reflexivity.
  - apply Inv_boot. vm_compute. discriminate.
  - reflexivity.
  - vm_compute. repeat (constructor; [intros H; discriminate H|]). constructor.
Defined.

Lemma lazy_dial_witness :
  dial_requests (events_of (doOnce first_times_out "SENTINEL"
                              (master_args "mycluster")) s0)
  = [("10.0.0.1:26379", short)].
Proof.
  rewrite (lazy_dial first_times_out [] "SENTINEL" (master_args "mycluster") s0).
  - reflexivity.
  - apply Inv_boot. vm_compute. discriminate.
  - discriminate.
Defined.

Lemma V2_do_leaves_connection_iff_success_witness :
  conn (sc (snd (V2.do all_down "SENTINEL" (master_args "mycluster") s0))) = None /\
  live (nw (snd (V2.do all_down "SENTINEL" (master_args "mycluster") s0))) = [].
Proof.
  apply (V2_do_leaves_connection_iff_success all_down [] "SENTINEL"
           (master_args "mycluster") s0 RNil
           (Some "dial tcp 10.0.0.2:26379: connection refused")
           (snd (V2.do all_down "SENTINEL" (master_args "mycluster") s0))).
  - apply Inv_boot. vm_compute. discriminate.
  - discriminate.
  - reflexivity.
Defined.

Lemma close_then_redial_witness :
  let held := snd (doOnce (all_up RNil) "SENTINEL" (master_args "mycluster") s0) in
  events_of Close held = [EvClose (mkConn 0 "10.0.0.1:26379")] /\
  dial_requests (events_of (doOnce (all_up RNil) "SENTINEL"
                              (master_args "mycluster")) (snd (Close held)))
  = [("10.0.0.1:26379", short)].
Proof.
  intros held.
  destruct (close_then_redial (all_up RNil) [] "SENTINEL"
              (master_args "mycluster") held) as (H1 & _ & _ & H2).
  - destruct (doOnce_spec (all_up RNil) [] "SENTINEL" (master_args "mycluster") s0)
      as (r & e & s1 & evs & Hd & _ & _ & _ & _ & _ & I1 & _).
    + apply Inv_boot. vm_compute. discriminate.
    + discriminate.
    + unfold held. rewrite Hd. exact I1.
  - discriminate.
  - split; [exact H1 | rewrite H2; reflexivity].
Defined.

Lemma testOnBorrow_accepts_master_only_witness :
  fst (testOnBorrow (all_up (RArray [RBulk "master"])) (Some data_conn) 0%Z s0)
    = Return None /\
  fst (testOnBorrow (all_up (RArray [RBulk "slave"])) (Some data_conn) 0%Z s0)
    = Return (Some "failed role check: role check failed").
Proof.
  split.
  - apply (proj1 (testOnBorrow_accepts_master_only
                    (all_up (RArray [RBulk "master"])) data_conn 0%Z s0)).
    exists (RBulk "master"), []. split; reflexivity.
  - apply (proj1 (proj2 (testOnBorrow_accepts_master_only
                           (all_up (RArray [RBulk "slave"])) data_conn 0%Z s0))).
    reflexivity.
Defined.

Lemma dial_rejected_connection_stays_open_witness :
  let net := all_up (RArray [RBulk "slave"]) in
  fst (V2.dial net conf_ok s0)
    = Return (None, Some "dial: failed role check: role check failed") /\
  live (nw (snd (V2.dial net conf_ok s0)))
    = [mkConn 1 "10.0.0.9:6379"; mkConn 0 "10.0.0.1:26379"].
Proof.
  intros net.
  pose (s1 := snd (V2.MasterAddress net "mycluster" s0)).
  pose (s2 := snd (redis_Dial net "10.0.0.9:6379" (redis_options conf_ok) s1)).
  pose (s' := snd (TestRole net (Some (mkConn 1 "10.0.0.9:6379")) "master" s2)).
  destruct (proj1 (dial_rejected_connection_stays_open net) conf_ok s0
              "10.0.0.9:6379" s1 (mkConn 1 "10.0.0.9:6379") s2
              "role check failed" s' eq_refl eq_refl eq_refl)
    as (Hs & _ & _ & Hl).
  split; [reflexivity|]. rewrite Hs, (Hl eq_refl). reflexivity.
Defined.

Lemma dial_stops_at_first_failure_witness :
  V2.dial all_down conf_ok s0
  = (Return (None, Some "sentinel: get master address: dial tcp 10.0.0.2:26379: connection refused"),
     snd (V2.MasterAddress all_down "mycluster" s0)).
Proof.
  apply (proj1 (dial_stops_at_first_failure all_down) conf_ok s0 "").
  reflexivity.
Defined.

Lemma V1_timeouts_are_indexed_witness :
  V1.NewPool all_down (V1.mkClusterConfig "mycluster" monitors [Second; Second] [])
    = Panic "index out of range" /\
  fst (V1.dial (all_up RNil)
         (V1.mkClusterConfig "mycluster" monitors [Second; Second; Second]
                             [Second]) s0)
    = Panic "index out of range".
Proof.
  split.
  - apply (proj1 (proj2 (V1_timeouts_are_indexed all_down))). cbn. lia.
  - rewrite (proj2 (proj2 (V1_timeouts_are_indexed (all_up RNil)))
               (V1.mkClusterConfig "mycluster" monitors [Second; Second; Second]
                                   [Second])
               s0 "10.0.0.9:6379"
               (snd (V1.MasterAddress (all_up RNil) "mycluster" s0)) eq_refl).
    + reflexivity.
    + cbn. lia.
Defined.

(** * Errors of an attempt and errors of the decoder; validation by copy *)

Section Amended.
Variable net : Net.

(** What an attempt that succeeds adds to the history: the command on the
    connection the client holds afterwards, after the dial of
    [addrs[activeAddr]] when it held none. *)
Lemma doOnce_ok_events rest cmd args s r s1 :
  Inv rest s -> addrs (sc s) <> [] ->
  doOnce net cmd args s = (Return (r, None), s1) ->
  exists k, conn (sc s1) = Some k /\ live (nw s1) = k :: rest /\
    (events_of (doOnce net cmd args) s = [EvDo k cmd args None] \/
     events_of (doOnce net cmd args) s
     = [EvDial (monitor_at s 0) (options (sc s)) None; EvDo k cmd args None]).
Proof.
  intros I Hne Hd.
  destruct (doOnce_spec net rest cmd args s I Hne)
    as (r' & e' & s1' & evs & Hd' & _ & _ & _ & Hl & _ & I1 & Hc).
  rewrite Hd in Hd'. injection Hd' as <- <- <-.
  destruct Hc as (k & Hk & _).
  exists k. split; [exact Hk|]. split.
  { rewrite (inv_live I1). unfold owned. rewrite Hk. reflexivity. }
  rewrite (events_of_log (doOnce net cmd args) s evs) by (rewrite Hd; exact Hl).
  clear I1.
  destruct s as [[c o a i] [lv fr lg]].
  destruct I as [Il If Ind Ip Ii Ilen]. cbn in Il, If, Ind, Ip, Ii, Hne.
  destruct Ii as [Ii|Ii]; [contradiction|].
  unfold monitor_at. cbn [sc nw conn options addrs activeAddr log] in *.
  rewrite Z.add_0_r, Z.mod_small by lia.
  unfold doOnce, bind, getClient in Hd. cbn [sc conn] in Hd.
  destruct c as [k0|].
  - left. unfold conn_Do, deref, ret in Hd. cbn -[filter] in Hd.
    destruct (on_do net lg k0 cmd args) as [r0 [e0|]] eqn:Edo;
      cbn -[filter] in Hd; [discriminate|].
    injection Hd as <- <-. cbn in Hl, Hk. injection Hk as <-.
    apply app_inv_head in Hl. subst evs. reflexivity.
  - right. unfold index in Hd. cbn -[filter] in Hd.
    destruct (slice_at_ok a i Ii) as [addr [Ea Enth]]. rewrite Ea in Hd.
    rewrite (nth_error_nth a (Z.to_nat i) "" Enth).
    unfold redis_Dial in Hd. cbn -[filter] in Hd.
    destruct (on_dial net lg addr o) as [e0|] eqn:Ed; cbn -[filter] in Hd;
      [discriminate|].
    unfold conn_Do in Hd. cbn -[filter] in Hd.
    destruct (on_do net (lg ++ [EvDial addr o None]) (mkConn fr addr) cmd args)
      as [r0 [e0|]] eqn:Edo; cbn -[filter] in Hd; [discriminate|].
    injection Hd as <- <-. cbn in Hl, Hk. injection Hk as <-.
    rewrite <- app_assoc in Hl. apply app_inv_head in Hl. subst evs.
    reflexivity.
Qed.

(** Claim C5, as amended.  At any attempt of a call of [MasterAddress]
    (after [k] failed ones): when [doOnce] returns an error, which is an
    error of [redis.Dial] or of [Conn.Do], the connection is closed and
    cleared and the loop of either copy goes on with [activeAddr] at
    [(activeAddr + 1) mod len(addrs)] and nothing else of the client
    changed.  When [doOnce] returns no error the attempt has not failed,
    whatever the shape or type of the reply: the connection is kept and not
    closed and [activeAddr] stays; the loop of the second copy ends there,
    and [MasterAddress] returns what [redis.Strings] makes of the reply, its
    error included, in the state the attempt left. *)
Theorem attempt_errors_rotate_decode_errors_do_not rest name k s0 s :
  let cmd := "SENTINEL" in
  let args := master_args name in
  Inv rest s0 ->
  failed_attempts net cmd args k s0 s ->
  k < List.length (addrs (sc s0)) ->
  (forall r e s1,
      doOnce net cmd args s = (Return (r, Some e), s1) ->
      conn (sc s1) = None /\ live (nw s1) = rest /\
      (forall c cm a r',
          In (EvDo c cm a r') (events_of (doOnce net cmd args) s) ->
          In (EvClose c) (events_of (doOnce net cmd args) s)) /\
      sc (rotated s1)
        = mkClient None (options (sc s)) (addrs (sc s))
            ((activeAddr (sc s) + 1) mod Z.of_nat (List.length (addrs (sc s)))) /\
      nw (rotated s1) = nw s1 /\
      (forall n r0 e0,
          V1.do_loop net (S n) cmd args r0 e0 s
          = V1.do_loop net n cmd args r (Some e) (rotated s1)) /\
      (forall n r0 e0,
          V2.do_loop net (S n) cmd args r0 e0 s
          = V2.do_loop net n cmd args r (Some e) (rotated s1))) /\
  (forall reply s1,
      doOnce net cmd args s = (Return (reply, None), s1) ->
      (exists c, conn (sc s1) = Some c /\ live (nw s1) = c :: rest) /\
      activeAddr (sc s1) = activeAddr (sc s) /\
      (forall c, ~ In (EvClose c) (events_of (doOnce net cmd args) s)) /\
      (forall n r0 e0,
          V1.do_loop net (S n) cmd args r0 e0 s
          = V1.do_loop net n cmd args reply None s1) /\
      (forall n r0 e0,
          V2.do_loop net (S n) cmd args r0 e0 s = (Return (reply, None), s1)) /\
      V2.MasterAddress net name s0
      = (Return (strings_Join (fst (redis_Strings reply None)) ":",
                 snd (redis_Strings reply None)), s1)).
Proof.
  intros cmd args I Hfa Hk.
  assert (Hne : addrs (sc s0) <> [])
    by (intros E; rewrite E in Hk; cbn in Hk; lia).
  destruct (failed_attempts_loop net rest cmd args k s0 s Hfa I Hne)
    as (Is & Has & Hloop).
  assert (Hnes : addrs (sc s) <> []) by (rewrite Has; exact Hne).
  split.
  - intros r e s1 Hd.
    exact (failed_attempt_rotates net rest cmd args s r e s1 Is Hnes Hd).
  - intros reply s1 Hd.
    destruct (doOnce_spec net rest cmd args s Is Hnes)
      as (r' & e' & s1' & evs & Hd' & _ & _ & Hi & _ & _ & _ & _).
    rewrite Hd in Hd'. injection Hd' as <- <- <-.
    destruct (doOnce_ok_events rest cmd args s reply s1 Is Hnes Hd)
      as (c & Hc & Hlive & Hev).
    conj.
    + exists c. split; assumption.
    + exact Hi.
    + intros c' HIn. destruct Hev as [Hev|Hev]; rewrite Hev in HIn;
        cbn in HIn; repeat (destruct HIn as [HIn|HIn]; [discriminate HIn|]);
        exact HIn.
    + intros n r0 e0. apply V1_ok_unfold. exact Hd.
    + intros n r0 e0. apply V2_ok_unfold. exact Hd.
    + unfold V2.MasterAddress, V2.do, bind, getClient.
      fold (master_args name). fold args. fold cmd.
      replace (List.length (addrs (sc s0)))
        with (k + S (List.length (addrs (sc s0)) - k - 1)) by lia.
      destruct (Hloop (S (List.length (addrs (sc s0)) - k - 1)) RNil None)
        as (r' & e' & ->).
      rewrite (V2_ok_unfold net _ cmd args r' e' s reply s1 Hd).
      destruct (redis_Strings reply None) as [res err']. reflexivity.
Qed.

(** Claim C2, as amended.  [NewPool] of the second copy (lines 212-256)
    validates before it builds the client: it returns the error of
    [validateConfig], and neither pool nor client, when the master name is
    empty, the list of sentinels is empty, one of the three sentinel
    timeouts is zero or the connect timeout of the data node is zero, and
    otherwise a pool with a fresh client.  [NewPool] of the first copy
    (lines 34-74) has no error to return and validates nothing: given three
    sentinel timeouts it returns a pool with a fresh client, whatever the
    name, the sentinels and the timeouts are. *)
Theorem NewPool_validates_in_second_copy :
  (forall conf,
      let invalid :=
        V2.Master conf = "" \/ V2.Sentinels conf = [] \/
        V2.Connect (V2.SentinelTimeouts conf) = 0%Z \/
        V2.Read (V2.SentinelTimeouts conf) = 0%Z \/
        V2.Write (V2.SentinelTimeouts conf) = 0%Z \/
        V2.Connect (V2.RedisTimeouts conf) = 0%Z in
      (invalid -> exists e, V2.validateConfig conf = Some e /\
                            V2.NewPool net conf = (None, Some e)) /\
      (~ invalid -> V2.validateConfig conf = None /\
         exists p, V2.NewPool net conf
                   = (Some (p, NewClient (V2.Sentinels conf)
                                 [DialConnectTimeout (V2.Connect (V2.SentinelTimeouts conf));
                                  DialReadTimeout (V2.Read (V2.SentinelTimeouts conf));
                                  DialWriteTimeout (V2.Write (V2.SentinelTimeouts conf))]),
                      None))) /\
  (forall name sentinels t0 t1 t2 more redis,
      exists p,
        V1.NewPool net (V1.mkClusterConfig name sentinels
                          (t0 :: t1 :: t2 :: more) redis)
        = Return (p, NewClient sentinels
                       [DialConnectTimeout t0; DialReadTimeout t1;
                        DialWriteTimeout t2])).
Proof.
  split.
  - intros conf invalid. subst invalid.
    destruct conf as [m l [sc_ sr sw] [rc rr rw]].
    cbn [V2.Master V2.Sentinels V2.SentinelTimeouts V2.RedisTimeouts
         V2.Connect V2.Read V2.Write].
    unfold V2.NewPool, V2.validateConfig, V2.Nanoseconds.
    cbn [V2.Master V2.Sentinels V2.SentinelTimeouts V2.RedisTimeouts
         V2.Connect V2.Read V2.Write].
    destruct (String.eqb_spec m "") as [Em|Em].
    { split; [intros _; eexists; split; reflexivity
             | intros H; exfalso; apply H; auto]. }
    destruct l as [|a l].
    { split; [intros _; eexists; split; reflexivity
             | intros H; exfalso; apply H; auto]. }
    cbn [List.length Nat.eqb].
    destruct (Z.eqb_spec sc_ 0) as [E1|E1].
    { split; [intros _; eexists; split; reflexivity
             | intros H; exfalso; apply H; auto]. }
    destruct (Z.eqb_spec sr 0) as [E2|E2].
    { split; [intros _; eexists; split; reflexivity
             | intros H; exfalso; apply H; auto 6]. }
    destruct (Z.eqb_spec sw 0) as [E3|E3].
    { split; [intros _; eexists; split; reflexivity
             | intros H; exfalso; apply H; auto 6]. }
    destruct (Z.eqb_spec rc 0) as [E4|E4].
    { split; [intros _; eexists; split; reflexivity
             | intros H; exfalso; apply H; auto 7]. }
    cbn [orb]. split.
    + intros [H|[H|[H|[H|[H|H]]]]]; try contradiction. discriminate.
    + intros _. split; [reflexivity|]. eexists. reflexivity.
  - intros name sentinels t0 t1 t2 more redis. eexists.
    unfold V1.NewPool. cbn [V1.SentinelTimeouts V1.Sentinels].
    destruct (slice_at_ok (t0 :: t1 :: t2 :: more) 0) as (x0 & -> & [= <-]);
      [cbn [List.length]; lia|].
    destruct (slice_at_ok (t0 :: t1 :: t2 :: more) 1) as (x1 & -> & [= <-]);
      [cbn [List.length]; lia|].
    destruct (slice_at_ok (t0 :: t1 :: t2 :: more) 2) as (x2 & -> & [= <-]);
      [cbn [List.length]; lia|].
    reflexivity.
Qed.
End Amended.

(** Claim C2 as it was stated fails on the first copy of [NewPool]: with an
    empty master name it returns a pool. *)
Lemma V1_NewPool_accepts_empty_name :
  V1.Name unnamed = "" /\
  exists p, V1.NewPool all_down unnamed = Return (p, NewClient monitors short).
Proof. split; [reflexivity | eexists; reflexivity]. Qed.

(** Claim C5 as it was stated fails on a reply of the wrong type: the
    decoder reports the error after the loop, the one attempt made counts as
    a success, nothing is closed, the client keeps its connection and
    [activeAddr], and the second monitor is not tried. *)
Lemma decode_error_does_not_rotate :
  let net := scripted_net [(RInt 1, None)] in
  let run := V2.MasterAddress net "mycluster" s0 in
  fst run
    = Return ("", Some "redigo: unexpected type for Strings, got type int64") /\
  attempts (events_of (V2.MasterAddress net "mycluster") s0) = [None] /\
  events_of (V2.MasterAddress net "mycluster") s0
    = [EvDial "10.0.0.1:26379" short None;
       EvDo (mkConn 0 "10.0.0.1:26379") "SENTINEL" (master_args "mycluster") None] /\
  conn (sc (snd run)) = Some (mkConn 0 "10.0.0.1:26379") /\
  live (nw (snd run)) = [mkConn 0 "10.0.0.1:26379"] /\
  activeAddr (sc s0) = 0%Z /\ activeAddr (sc (snd run)) = 0%Z.
Proof. vm_compute. repeat split; reflexivity. Qed.

(** A reply of the wrong type, and a command that times out. *)
Lemma attempt_errors_rotate_decode_errors_do_not_witness :
  let net := scripted_net [(RInt 1, None)] in
  V2.MasterAddress net "mycluster" s0
  = (Return ("", Some "redigo: unexpected type for Strings, got type int64"),
     snd (doOnce net "SENTINEL" (master_args "mycluster") s0)) /\
  sc (rotated (snd (doOnce first_times_out "SENTINEL" (master_args "mycluster") s0)))
  = mkClient None short monitors 1.
Proof.
  intros net. split.
  - destruct (attempt_errors_rotate_decode_errors_do_not net [] "mycluster" 0 s0 s0)
      as [_ H].
    + apply Inv_boot. vm_compute. discriminate.
    + constructor.
    + vm_compute. lia.
    + destruct (H (RInt 1) (snd (doOnce net "SENTINEL" (master_args "mycluster") s0))
                  eq_refl) as (_ & _ & _ & _ & _ & Hm).
      rewrite Hm. reflexivity.
  - destruct (attempt_errors_rotate_decode_errors_do_not first_times_out []
                "mycluster" 0 s0 s0) as [H _].
    + apply Inv_boot. vm_compute. discriminate.
    + constructor.
    + vm_compute. lia.
    + destruct (H RNil "i/o timeout"
                  (snd (doOnce first_times_out "SENTINEL"
                          (master_args "mycluster") s0)) eq_refl)
        as (_ & _ & _ & Hsc & _).
      rewrite Hsc. reflexivity.
Defined.

(** An empty master name and a valid configuration for the second copy, an
    empty master name for the first. *)
Lemma NewPool_validates_in_second_copy_witness :
  V2.NewPool all_down (V2.mkConfig "" monitors (V2.mkTimeouts 1 1 1)%Z
                                   (V2.mkTimeouts 1 1 1)%Z)
    = (None, Some "master is not set") /\
  (exists p, V2.NewPool all_down conf_ok
             = (Some (p, NewClient monitors short), None)) /\
  (exists p, V1.NewPool all_down unnamed = Return (p, NewClient monitors short)).
Proof.
  conj.
  - destruct (proj1 (proj1 (NewPool_validates_in_second_copy all_down)
                       (V2.mkConfig "" monitors (V2.mkTimeouts 1 1 1)%Z
                                    (V2.mkTimeouts 1 1 1)%Z)))
      as (e & He & Hp).
    + left. reflexivity.
    + rewrite Hp. vm_compute in He. injection He as <-. reflexivity.
  - destruct (proj2 (proj1 (NewPool_validates_in_second_copy all_down) conf_ok))
      as (_ & p & Hp).
    + vm_compute. intros [H|[H|[H|[H|[H|H]]]]]; discriminate H.
    + exists p. exact Hp.
  - apply (proj2 (NewPool_validates_in_second_copy all_down)).
Defined.
